(** * Altster: the hybrid playback orchestrator

    A shallow embedding of [src/lib/spotify/player.ts], of [getTrack] from
    [src/lib/spotify/api.ts], of the zustand player store
    ([store/playerStore.ts]) and of the [useSpotifyPlayer] hook, followed by
    the properties of the playback specification settled on this embedding.

    Modelling conventions.
    - The module-level [let] variables of [player.ts] and the page objects
      they depend on ([window.Spotify], the SDK ready callback) are the
      fields of one record, [World], threaded through every operation.  The
      shared audio element is one field of it: every function works on the
      same element, as the source does through its global.
    - An [async] function is a computation [M A]: from a world it yields an
      outcome (promise resolved, promise rejected, promise never settled),
      the world it leaves behind and the chronological list of the effects
      it issued on its surroundings (network requests, calls on the audio
      element, on the document and on the SDK, console output).
    - What the browser, the network and the vendor SDK answer is read from
      an oracle record, [Env], one per top-level call.
    - Calls run to completion one after the other.  Two in-flight calls
      interleaved at an [await], and events the surroundings deliver after
      a promise has settled, are outside this part of the model.  The
      loading of the vendor SDK, where the order of calls and of the
      script's execution decides, is followed turn by turn instead
      ([initialize_executor], [sdk_script_runs], [page]).
    - A promise taken from the browser ([play()], a request) resolves or
      rejects; one that never settles is not among the oracle's answers.
      The body of a metadata answer that parses is a track object, as the
      declared type of [getTrack] says; [api.ts] does not check it, and a
      body that is JSON [null] is outside the model.
    - The [paused] attribute of the element changes with [pause()], with a
      resolved [play()] and with what the oracle reports where the code
      reads it in the start-detection window (the pause listener and the
      timer); where a 'playing' or 'timeupdate' event ends the window the
      code does not read it, and the model keeps what [play()] left.  The
      pause the browser's own load algorithm performs on a change of source
      is outside the model.
    - A JavaScript [number] is [NaN] or an exact rational; rounding and the
      infinities are outside the model.  Strings are ASCII. *)

From Stdlib Require Import Bool Arith List String Ascii Lia.
From Stdlib Require Import NArith QArith Qminmax Lqa.
Import ListNotations.
Close Scope Q_scope.
Local Open Scope string_scope.

(* ===================================================================== *)
(** ** JavaScript values *)
(* ===================================================================== *)

Module JS.

Local Open Scope Q_scope.

(** [number]: NaN or a finite value. *)
Inductive number : Type :=
| NaN
| Num (q : Q).

(** [Math.min] and [Math.max] answer NaN as soon as one argument is NaN. *)
Definition Math_min (a b : number) : number :=
  match a, b with
  | Num x, Num y => Num (Qmin x y)
  | _, _ => NaN
  end.

Definition Math_max (a b : number) : number :=
  match a, b with
  | Num x, Num y => Num (Qmax x y)
  | _, _ => NaN
  end.

Definition div (a b : number) : number :=
  match a, b with
  | Num x, Num y => if Qeq_bool y 0 then NaN else Num (x / y)
  | _, _ => NaN
  end.

Definition mul (a b : number) : number :=
  match a, b with
  | Num x, Num y => Num (x * y)
  | _, _ => NaN
  end.

(** [lo <= a && a <= hi]; false when [a] is NaN, as every comparison is. *)
Definition between (lo hi : Q) (a : number) : bool :=
  match a with
  | Num x => Qle_bool lo x && Qle_bool x hi
  | NaN => false
  end.

(** Equality of numbers up to the representation of the rational. *)
Definition num_eq (a b : number) : Prop :=
  match a, b with
  | Num x, Num y => x == y
  | NaN, NaN => True
  | _, _ => False
  end.

(** Truthiness of [string | null | undefined]: null, undefined and the
    empty string are falsy. *)
Definition truthy (s : option string) : bool :=
  match s with
  | Some (String _ _) => true
  | _ => false
  end.

(** [a || b] on such a value with a string default. *)
Definition or_else (a : option string) (b : string) : string :=
  match a with
  | Some (String c r) => String c r
  | _ => b
  end.

(** [String.prototype.toLowerCase], on ASCII letters. *)
Definition lower_ascii (c : ascii) : ascii :=
  let n := nat_of_ascii c in
  if Nat.leb 65 n && Nat.leb n 90 then ascii_of_nat (n + 32)%nat else c.

Fixpoint toLowerCase (s : string) : string :=
  match s with
  | EmptyString => EmptyString
  | String c r => String (lower_ascii c) (toLowerCase r)
  end.

(** [hay.includes(needle)]. *)
Fixpoint includes (needle hay : string) : bool :=
  if prefix needle hay then true
  else match hay with
       | EmptyString => false
       | String _ r => includes needle r
       end.

(** Thrown values.  [instanceof] is decided on the class tag, as it is for
    native (ES2015) classes. *)
Inductive ErrClass : Type :=
| DOMExceptionC          (* new DOMException(...) raised by the browser *)
| ErrorC                 (* new Error(...) and the built-in subclasses *)
| AutoplayBlockedErrorC  (* class AutoplayBlockedError extends Error *)
| NotAnError.            (* a thrown value that is no Error object *)

Record Thrown : Type := mkThrown {
  cls : ErrClass;
  name : string;
  message : string
}.

Definition Error (msg : string) : Thrown := mkThrown ErrorC "Error" msg.

Definition instanceof_DOMException (e : Thrown) : bool :=
  match cls e with DOMExceptionC => true | _ => false end.

(** [DOMException] is tested first wherever the source tests both, so
    whether it also answers to [instanceof Error] never matters. *)
Definition instanceof_Error (e : Thrown) : bool :=
  match cls e with
  | ErrorC | AutoplayBlockedErrorC | DOMExceptionC => true
  | NotAnError => false
  end.

Definition instanceof_AutoplayBlockedError (e : Thrown) : bool :=
  match cls e with AutoplayBlockedErrorC => true | _ => false end.

(** What the browser throws. *)
Definition IndexSizeError : Thrown :=
  mkThrown DOMExceptionC "IndexSizeError" "The volume provided is outside the range [0, 1].".
Definition NonFiniteTypeError : Thrown :=
  mkThrown ErrorC "TypeError" "The provided double value is non-finite.".
Definition JSONSyntaxError : Thrown :=
  mkThrown ErrorC "SyntaxError" "Unexpected token in JSON".

End JS.
Import JS.

(* ===================================================================== *)
(** ** Data of [types.ts] *)
(* ===================================================================== *)

Record Artist : Type := { artist_id : string; artist_name : string }.

Record Image : Type := { image_url : string; image_height : nat; image_width : nat }.

Record Album : Type := { album_id : string; album_name : string; images : list Image }.

Record SpotifyTrack : Type := {
  id : string;
  track_name : string;
  artists : list Artist;
  album : Album;
  duration_ms : N;
  preview_url : option string;        (* string | null *)
  uri : string;
  external_urls_spotify : string
}.

(** [PlaybackType = 'preview' | 'full' | null]. *)
Inductive PlaybackType : Type := preview | full | null_type.

(* ===================================================================== *)
(** ** The page: shared audio element, SDK objects, module variables *)
(* ===================================================================== *)

(** The attributes of [HTMLAudioElement] that [player.ts] reads or writes,
    and the [timeupdate] listeners registered by [onPreviewProgress]
    (handler identity, callback identity). *)
Record HTMLAudioElement : Type := {
  src : string;
  preload : string;
  loop : bool;
  muted : bool;
  currentTime : number;
  volume : number;
  paused : bool;
  duration : number;
  timeupdate_listeners : list (nat * nat)
}.

(** [new Audio()]. *)
Definition new_Audio : HTMLAudioElement :=
  {| src := ""; preload := ""; loop := false; muted := false;
     currentTime := Num 0; volume := Num 1; paused := true; duration := NaN;
     timeupdate_listeners := [] |}.

(** [new window.Spotify.Player({name, getOAuthToken, volume})]; whether the
    loaded SDK offers [activateElement] is a fact of the SDK build. *)
Record SpotifyPlayerObj : Type := {
  player_name : string;
  oauth_token : string;
  player_volume : number;
  has_activateElement : bool
}.

Record World : Type := mkWorld {
  audioElement : option HTMLAudioElement;   (* let audioElement = null *)
  audioUnlocked : bool;                     (* let audioUnlocked = false *)
  keepAliveActive : bool;                   (* let keepAliveActive = false *)
  spotifyPlayer : option SpotifyPlayerObj;  (* let spotifyPlayer = null *)
  deviceId : option string;                 (* let deviceId = null *)
  window_Spotify : bool;                    (* is window.Spotify defined *)
  onSpotifyWebPlaybackSDKReady : option string;
      (* window.onSpotifyWebPlaybackSDKReady: the token its closure holds *)
  next_handler : nat                        (* identities of new closures *)
}.

(** A freshly loaded page. *)
Definition initial_world : World :=
  mkWorld None false false None None false None 0.

Definition set_audioElement (v : option HTMLAudioElement) (w : World) : World :=
  mkWorld v (audioUnlocked w) (keepAliveActive w) (spotifyPlayer w) (deviceId w)
          (window_Spotify w) (onSpotifyWebPlaybackSDKReady w) (next_handler w).
Definition set_audioUnlocked (v : bool) (w : World) : World :=
  mkWorld (audioElement w) v (keepAliveActive w) (spotifyPlayer w) (deviceId w)
          (window_Spotify w) (onSpotifyWebPlaybackSDKReady w) (next_handler w).
Definition set_keepAliveActive (v : bool) (w : World) : World :=
  mkWorld (audioElement w) (audioUnlocked w) v (spotifyPlayer w) (deviceId w)
          (window_Spotify w) (onSpotifyWebPlaybackSDKReady w) (next_handler w).
Definition set_spotifyPlayer (v : option SpotifyPlayerObj) (w : World) : World :=
  mkWorld (audioElement w) (audioUnlocked w) (keepAliveActive w) v (deviceId w)
          (window_Spotify w) (onSpotifyWebPlaybackSDKReady w) (next_handler w).
Definition set_deviceId (v : option string) (w : World) : World :=
  mkWorld (audioElement w) (audioUnlocked w) (keepAliveActive w) (spotifyPlayer w) v
          (window_Spotify w) (onSpotifyWebPlaybackSDKReady w) (next_handler w).
Definition set_window_Spotify (v : bool) (w : World) : World :=
  mkWorld (audioElement w) (audioUnlocked w) (keepAliveActive w) (spotifyPlayer w)
          (deviceId w) v (onSpotifyWebPlaybackSDKReady w) (next_handler w).
Definition set_onReady (v : option string) (w : World) : World :=
  mkWorld (audioElement w) (audioUnlocked w) (keepAliveActive w) (spotifyPlayer w)
          (deviceId w) (window_Spotify w) v (next_handler w).
Definition set_next_handler (v : nat) (w : World) : World :=
  mkWorld (audioElement w) (audioUnlocked w) (keepAliveActive w) (spotifyPlayer w)
          (deviceId w) (window_Spotify w) (onSpotifyWebPlaybackSDKReady w) v.

(** Assignments to attributes of the element. *)
Definition with_src (v : string) (e : HTMLAudioElement) : HTMLAudioElement :=
  {| src := v; preload := preload e; loop := loop e; muted := muted e;
     currentTime := currentTime e; volume := volume e; paused := paused e;
     duration := duration e; timeupdate_listeners := timeupdate_listeners e |}.
Definition with_preload (v : string) (e : HTMLAudioElement) : HTMLAudioElement :=
  {| src := src e; preload := v; loop := loop e; muted := muted e;
     currentTime := currentTime e; volume := volume e; paused := paused e;
     duration := duration e; timeupdate_listeners := timeupdate_listeners e |}.
Definition with_loop (v : bool) (e : HTMLAudioElement) : HTMLAudioElement :=
  {| src := src e; preload := preload e; loop := v; muted := muted e;
     currentTime := currentTime e; volume := volume e; paused := paused e;
     duration := duration e; timeupdate_listeners := timeupdate_listeners e |}.
Definition with_muted (v : bool) (e : HTMLAudioElement) : HTMLAudioElement :=
  {| src := src e; preload := preload e; loop := loop e; muted := v;
     currentTime := currentTime e; volume := volume e; paused := paused e;
     duration := duration e; timeupdate_listeners := timeupdate_listeners e |}.
Definition with_currentTime (v : number) (e : HTMLAudioElement) : HTMLAudioElement :=
  {| src := src e; preload := preload e; loop := loop e; muted := muted e;
     currentTime := v; volume := volume e; paused := paused e;
     duration := duration e; timeupdate_listeners := timeupdate_listeners e |}.
Definition with_volume (v : number) (e : HTMLAudioElement) : HTMLAudioElement :=
  {| src := src e; preload := preload e; loop := loop e; muted := muted e;
     currentTime := currentTime e; volume := v; paused := paused e;
     duration := duration e; timeupdate_listeners := timeupdate_listeners e |}.
Definition with_paused (v : bool) (e : HTMLAudioElement) : HTMLAudioElement :=
  {| src := src e; preload := preload e; loop := loop e; muted := muted e;
     currentTime := currentTime e; volume := volume e; paused := v;
     duration := duration e; timeupdate_listeners := timeupdate_listeners e |}.
Definition with_listeners (v : list (nat * nat)) (e : HTMLAudioElement) : HTMLAudioElement :=
  {| src := src e; preload := preload e; loop := loop e; muted := muted e;
     currentTime := currentTime e; volume := volume e; paused := paused e;
     duration := duration e; timeupdate_listeners := v |}.

(* ===================================================================== *)
(** ** Effects on the surroundings and the answers of the surroundings *)
(* ===================================================================== *)

(** Calls and assignments on the shared audio element. *)
Inductive AudioOp : Type :=
| SetPreload (v : string)
| SetSrc (s : string)
| SetLoop (b : bool)
| SetMuted (b : bool)
| SetCurrentTime (t : number)
| SetVolume (v : number)
| Load
| Play
| PauseOp
| AddListener (event : string) (handler : nat)
| RemoveListener (event : string) (handler : nat).

(** Calls on the vendor SDK. *)
Inductive SDKOp : Type :=
| NewPlayer (name token : string)
| AddPlayerListener (event : string)
| Connect
| SDKPause
| SDKResume
| Disconnect
| ActivateElement.

Inductive Effect : Type :=
| Fetch (method url authorization : string) (uris : list string)
| CreateAudio
| AudioCall (op : AudioOp)
| AppendScript (script_src : string)
| SetTimeout (ms : N)
| SDKCall (op : SDKOp)
| ConsoleLog (msg : string)
| ConsoleError (msg : string).

(** [navigator], when the global exists. *)
Record Navigator : Type := {
  userAgent : string;
  platform : string;
  maxTouchPoints : nat
}.

(** A settled [fetch]: the promise rejects, or a response arrives whose
    body parses ([Some]) or does not ([None], [json()] rejects). *)
Record Response (B : Type) : Type := {
  status : nat;
  statusText : string;
  body : option B
}.
Arguments status {B} _.
Arguments statusText {B} _.
Arguments body {B} _.

Inductive FetchResult (B : Type) : Type :=
| FetchRejects (e : Thrown)
| FetchResponds (r : Response B).
Arguments FetchRejects {B} _.
Arguments FetchResponds {B} _.

(** [response.ok]. *)
Definition ok {B} (r : Response B) : bool :=
  Nat.leb 200 (status r) && Nat.leb (status r) 299.

(** The error body of the Web API, read as [error.error?.message]. *)
Record ErrorBody : Type := { error_message : option string }.

(** What the SDK player reports after [connect()]. *)
Inductive PlayerEvent : Type :=
| PReady (device_id : string)
| PInitializationError (msg : string)
| PAuthenticationError (msg : string)
| PAccountError (msg : string)
| PSilent.

(** What the element reports inside the start-detection window; a [pause]
    event carries the value [element.paused] has when the listener runs. *)
Inductive MediaEvent : Type :=
| EvPlaying
| EvTimeUpdate
| EvPause (paused_now : bool).

Record Env : Type := {
  navigator : option Navigator;            (* None: typeof navigator === 'undefined' *)
  trackFetch : FetchResult SpotifyTrack;   (* GET /tracks/{id} *)
  sdkScriptLoads : bool;                   (* does the SDK script run within 10 s *)
  sdkHasActivateElement : bool;
  playerEvent : PlayerEvent;
  sdkPlayFetch : FetchResult ErrorBody;    (* PUT /me/player/play?device_id= *)
  connectFetch : FetchResult ErrorBody;    (* PUT /me/player/play *)
  playOutcome : option Thrown;             (* element.play(): None resolves *)
  startEvents : list MediaEvent;           (* events before the 300 ms timer *)
  pausedAtTimeout : bool;                  (* element.paused when the timer fires *)
  sdkPauseOutcome : option Thrown;         (* spotifyPlayer.pause() *)
  sdkResumeOutcome : option Thrown         (* spotifyPlayer.resume() *)
}.

(* ===================================================================== *)
(** ** Computations *)
(* ===================================================================== *)

Inductive Outcome (A : Type) : Type :=
| Resolved (a : A)
| Rejected (e : Thrown)
| Pending.
Arguments Resolved {A} _.
Arguments Rejected {A} _.
Arguments Pending {A}.

Record Run (A : Type) : Type := mkRun {
  outcome : Outcome A;
  final : World;
  effects : list Effect
}.
Arguments mkRun {A} _ _ _.
Arguments outcome {A} _.
Arguments final {A} _.
Arguments effects {A} _.

Definition M (A : Type) : Type := World -> Run A.

Definition ret {A} (a : A) : M A := fun w => mkRun (Resolved a) w [].

Definition throw {A} (e : Thrown) : M A := fun w => mkRun (Rejected e) w [].

Definition never {A} : M A := fun w => mkRun Pending w [].

Definition bind {A B} (m : M A) (f : A -> M B) : M B := fun w =>
  match m w with
  | mkRun (Resolved a) w1 es1 =>
      match f a w1 with
      | mkRun o w2 es2 => mkRun o w2 (es1 ++ es2)
      end
  | mkRun (Rejected e) w1 es1 => mkRun (Rejected e) w1 es1
  | mkRun Pending w1 es1 => mkRun Pending w1 es1
  end.

(** [try { m } catch (error) { h error }]. *)
Definition try_catch {A} (m : M A) (h : Thrown -> M A) : M A := fun w =>
  match m w with
  | mkRun (Rejected e) w1 es1 =>
      match h e w1 with
      | mkRun o w2 es2 => mkRun o w2 (es1 ++ es2)
      end
  | r => r
  end.

Definition get : M World := fun w => mkRun (Resolved w) w [].

Definition modify (f : World -> World) : M unit := fun w => mkRun (Resolved tt) (f w) [].

Definition emit (e : Effect) : M unit := fun w => mkRun (Resolved tt) w [e].

Declare Scope js_scope.
Delimit Scope js_scope with js.
Notation "x <- m ;; k" := (bind m (fun x => k))
  (at level 61, m at next level, right associativity) : js_scope.
Notation "m ;; k" := (bind m (fun _ => k))
  (at level 61, right associativity) : js_scope.
Local Open Scope js_scope.

Definition when (b : bool) (m : M unit) : M unit := if b then m else ret tt.

(* ===================================================================== *)
(** ** [api.ts]: the track resolver *)
(* ===================================================================== *)

Definition BASE_URL : string := "https://api.spotify.com/v1".

(** [await fetch(url, init)]: the request is issued, the oracle settles it. *)
Definition fetch {B} (method url token : string) (uris : list string)
    (answer : FetchResult B) : M (Response B) :=
  emit (Fetch method url ("Bearer " ++ token) uris) ;;
  match answer with
  | FetchRejects e => throw e
  | FetchResponds r => ret r
  end.

(** [await response.json()]. *)
Definition json {B} (r : Response B) : M B :=
  match body r with
  | Some b => ret b
  | None => throw JSONSyntaxError
  end.

Section Player.

Variable env : Env.

(** [getTrack] (api.ts, lines 10-29). *)
Definition getTrack (trackId accessToken : string) : M SpotifyTrack :=
  response <- fetch "GET" (BASE_URL ++ "/tracks/" ++ trackId) accessToken []
                    (trackFetch env) ;;
  if negb (ok response) then
    if Nat.eqb (status response) 404 then throw (Error "Track not found")
    else if Nat.eqb (status response) 401 then throw (Error "Authentication required")
    else throw (Error ("Failed to fetch track: " ++ statusText response))
  else
    data <- json response ;;
    ret data.

(* ===================================================================== *)
(** ** [player.ts] *)
(* ===================================================================== *)

Definition SILENT_AUDIO_SRC : string :=
  "data:audio/wav;base64,UklGRigAAABXQVZFZm10IBIAAAABAAEARKwAAIhYAQACABAAAABkYXRhAgAAAAEA".

(** [new AutoplayBlockedError()] (lines 11-16). *)
Definition AutoplayBlockedError : Thrown :=
  mkThrown AutoplayBlockedErrorC "AutoplayBlockedError" "Autoplay was blocked".

(** Lines 18-27. *)
Definition isAutoplayBlockedError (error : Thrown) : bool :=
  if instanceof_DOMException error then
    String.eqb (name error) "NotAllowedError"
  else if instanceof_Error error then
    let message := toLowerCase (message error) in
    includes "notallowed" message || includes "not allowed" message
    || includes "autoplay" message
  else false.

(** *** The element as the browser implements it *)

Definition update_element (f : HTMLAudioElement -> HTMLAudioElement) : M unit :=
  modify (fun w => set_audioElement (option_map f (audioElement w)) w).

(** An assignment that cannot fail. *)
Definition element_set (op : AudioOp)
    (f : HTMLAudioElement -> HTMLAudioElement) : M unit :=
  emit (AudioCall op) ;; update_element f.

(** [element.volume = v]: the setter refuses a value outside [0, 1] with an
    IndexSizeError, and a non-finite one with a TypeError. *)
Definition element_set_volume (v : number) : M unit :=
  emit (AudioCall (SetVolume v)) ;;
  match v with
  | NaN => throw NonFiniteTypeError
  | Num _ => if between 0 1 v then update_element (with_volume v)
             else throw IndexSizeError
  end.

(** [await element.play()]. *)
Definition element_play : M unit :=
  emit (AudioCall Play) ;;
  match playOutcome env with
  | None => update_element (with_paused false)
  | Some e => throw e
  end.

Definition element_pause : M unit :=
  element_set PauseOp (with_paused true).

Definition element_load : M unit := emit (AudioCall Load).

(** *** Module functions *)

(** Lines 29-35. *)
Definition ensureAudioElement : M unit :=
  w <- get ;;
  match audioElement w with
  | Some _ => ret tt
  | None =>
      emit CreateAudio ;;
      modify (set_audioElement (Some new_Audio)) ;;
      element_set (SetPreload "auto") (with_preload "auto")
  end.

(** Lines 37-43; the regular expression [/iPad|iPhone|iPod/] tests for one
    of three substrings. *)
Definition isIOSDevice : bool :=
  match navigator env with
  | None => false
  | Some nav =>
      let ua := userAgent nav in
      let isIOS := includes "iPad" ua || includes "iPhone" ua || includes "iPod" ua in
      let isIPadOS := String.eqb (platform nav) "MacIntel"
                      && Nat.ltb 1 (maxTouchPoints nav) in
      isIOS || isIPadOS
  end.

(** Lines 85-129. *)
Definition createPlayer (accessToken : string) : M unit :=
  emit (SDKCall (NewPlayer "Altster QR Scanner" accessToken)) ;;
  modify (set_spotifyPlayer
            (Some {| player_name := "Altster QR Scanner";
                     oauth_token := accessToken;
                     player_volume := Num (8 # 10);
                     has_activateElement := sdkHasActivateElement env |})) ;;
  emit (SDKCall (AddPlayerListener "initialization_error")) ;;
  emit (SDKCall (AddPlayerListener "authentication_error")) ;;
  emit (SDKCall (AddPlayerListener "account_error")) ;;
  emit (SDKCall (AddPlayerListener "playback_error")) ;;
  emit (SDKCall (AddPlayerListener "ready")) ;;
  emit (SDKCall (AddPlayerListener "not_ready")) ;;
  emit (SDKCall Connect).

(** The listeners installed by [createPlayer] settle the promise of
    [initializeSpotifyPlayer]; [timed] tells whether its 10 s timer runs. *)
Definition settle_on_player_event (timed : bool) : M string :=
  match playerEvent env with
  | PReady device_id =>
      emit (ConsoleLog ("Spotify Player ready with device ID: " ++ device_id)) ;;
      modify (set_deviceId (Some device_id)) ;;
      ret device_id
  | PInitializationError msg => throw (Error ("Initialization error: " ++ msg))
  | PAuthenticationError msg => throw (Error ("Authentication error: " ++ msg))
  | PAccountError msg =>
      throw (Error ("Account error: " ++ msg ++ ". Spotify Premium required."))
  | PSilent =>
      if timed then throw (Error "Spotify Player SDK failed to load") else never
  end.

(** Lines 59-83.  The executor of the promise runs at once; when
    [window.Spotify] is undefined the oracle tells whether the appended
    script runs, and calls the ready callback, before the 10 s timer. *)
Definition initializeSpotifyPlayer (accessToken : string) : M string :=
  w <- get ;;
  if window_Spotify w then
    createPlayer accessToken ;;
    settle_on_player_event false
  else
    emit (AppendScript "https://sdk.scdn.co/spotify-player.js") ;;
    modify (set_onReady (Some accessToken)) ;;
    emit (SetTimeout 10000%N) ;;
    if sdkScriptLoads env then
      modify (set_window_Spotify true) ;;
      createPlayer accessToken ;;
      settle_on_player_event true
    else throw (Error "Spotify Player SDK failed to load").

(** Lines 134-160. *)
Definition playWithSDK (trackUri accessToken : string) : M unit :=
  w <- get ;;
  if negb (truthy (deviceId w)) then throw (Error "Spotify player not initialized")
  else
    response <- fetch "PUT"
                  ("https://api.spotify.com/v1/me/player/play?device_id="
                     ++ or_else (deviceId w) "")
                  accessToken [trackUri] (sdkPlayFetch env) ;;
    if negb (ok response) then
      error <- json response ;;
      throw (Error (or_else (error_message error) "Failed to play track with SDK"))
    else ret tt.

(** Lines 279-284. *)
Definition stopPreview : M unit :=
  w <- get ;;
  match audioElement w with
  | Some _ =>
      element_pause ;;
      element_set (SetCurrentTime (Num 0)) (with_currentTime (Num 0))
  | None => ret tt
  end.

(** The race of [waitForPlaybackStart]: the first listener that calls
    [finish] decides; [None] when the timer is reached. *)
Fixpoint first_finish (events : list MediaEvent) : option bool :=
  match events with
  | [] => None
  | EvPlaying :: _ => Some true
  | EvTimeUpdate :: _ => Some true
  | EvPause paused_now :: rest =>
      if paused_now then Some false else first_finish rest
  end.

(** Lines 455-485: three listeners and a 300 ms timer, all removed by the
    first that finishes. *)
Definition waitForPlaybackStart : M bool :=
  w <- get ;;
  let h := next_handler w in
  modify (set_next_handler (h + 3)) ;;
  emit (AudioCall (AddListener "playing" h)) ;;
  emit (AudioCall (AddListener "timeupdate" (h + 1))) ;;
  emit (AudioCall (AddListener "pause" (h + 2))) ;;
  emit (SetTimeout 300%N) ;;
  started <- match first_finish (startEvents env) with
             | Some true => ret true
             | Some false => update_element (with_paused true) ;; ret false
             | None =>
                 update_element (with_paused (pausedAtTimeout env)) ;;
                 ret (negb (pausedAtTimeout env))
             end ;;
  emit (AudioCall (RemoveListener "playing" h)) ;;
  emit (AudioCall (RemoveListener "timeupdate" (h + 1))) ;;
  emit (AudioCall (RemoveListener "pause" (h + 2))) ;;
  ret started.

(** Lines 165-196. *)
Definition playPreview (previewUrl : string) (volume : number) : M unit :=
  w <- get ;;
  when (negb (keepAliveActive w)) stopPreview ;;
  ensureAudioElement ;;
  element_set (SetLoop false) (with_loop false) ;;
  element_set (SetMuted false) (with_muted false) ;;
  element_set (SetSrc previewUrl) (with_src previewUrl) ;;
  element_set (SetCurrentTime (Num 0)) (with_currentTime (Num 0)) ;;
  element_set_volume (div volume (Num 100)) ;;
  try_catch
    (element_load ;;
     element_play ;;
     started <- waitForPlaybackStart ;;
     (if negb started then throw AutoplayBlockedError else ret tt) ;;
     modify (set_keepAliveActive false))
    (fun error =>
       if isAutoplayBlockedError error then throw AutoplayBlockedError
       else
         emit (ConsoleError ("Failed to play preview: " ++ message error)) ;;
         throw (Error "Failed to play audio preview")).

(** Lines 201-211. *)
Definition preparePreview (previewUrl : string) (volume : number) : M unit :=
  stopPreview ;;
  ensureAudioElement ;;
  element_set (SetSrc previewUrl) (with_src previewUrl) ;;
  element_set (SetCurrentTime (Num 0)) (with_currentTime (Num 0)) ;;
  element_set_volume (div volume (Num 100)) ;;
  element_load.

(** Lines 217-232. *)
Definition unlockAudio : M unit :=
  w <- get ;;
  if audioUnlocked w then ret tt
  else
    try_catch
      (ensureAudioElement ;;
       element_set (SetSrc SILENT_AUDIO_SRC) (with_src SILENT_AUDIO_SRC) ;;
       element_set_volume (Num 0) ;;
       element_play ;;
       element_pause ;;
       element_set (SetCurrentTime (Num 0)) (with_currentTime (Num 0)) ;;
       modify (set_audioUnlocked true))
      (fun _ => ret tt).

(** Lines 238-253. *)
Definition startAutoplayKeepAlive : M unit :=
  w <- get ;;
  if keepAliveActive w then ret tt
  else
    try_catch
      (ensureAudioElement ;;
       element_set (SetSrc SILENT_AUDIO_SRC) (with_src SILENT_AUDIO_SRC) ;;
       element_set (SetLoop true) (with_loop true) ;;
       element_set (SetMuted true) (with_muted true) ;;
       element_set_volume (Num 0) ;;
       element_play ;;
       modify (set_keepAliveActive true) ;;
       modify (set_audioUnlocked true))
      (fun _ => ret tt).

(** Lines 259-263. *)
Definition activateSDKElement : M unit :=
  w <- get ;;
  match spotifyPlayer w with
  | Some p => when (has_activateElement p) (emit (SDKCall ActivateElement))
  | None => ret tt
  end.

(** Lines 265-274. *)
Definition stopAutoplayKeepAlive : M unit :=
  w <- get ;;
  if negb (keepAliveActive w) then ret tt
  else
    modify (set_keepAliveActive false) ;;
    match audioElement w with
    | Some _ =>
        element_set (SetLoop false) (with_loop false) ;;
        element_set (SetMuted false) (with_muted false) ;;
        element_pause ;;
        element_set (SetCurrentTime (Num 0)) (with_currentTime (Num 0))
    | None => ret tt
    end.

(** Lines 289-293. *)
Definition pausePreview : M unit :=
  w <- get ;;
  match audioElement w with
  | Some _ => element_pause
  | None => ret tt
  end.

(** Lines 298-304. *)
Definition resumePreview : M unit :=
  w <- get ;;
  match audioElement w with
  | Some _ =>
      try_catch element_play
        (fun error => emit (ConsoleError ("Failed to resume preview: " ++ message error)))
  | None => ret tt
  end.

(** Lines 309-313. *)
Definition setPreviewVolume (volume : number) : M unit :=
  w <- get ;;
  match audioElement w with
  | Some _ => element_set_volume (div volume (Num 100))
  | None => ret tt
  end.

Record Progress : Type := { current : number; progress_duration : number }.

(** Lines 318-326. *)
Definition getPreviewProgress : M Progress :=
  w <- get ;;
  match audioElement w with
  | Some el =>
      ret {| current := mul (currentTime el) (Num 1000);
             progress_duration := mul (duration el) (Num 1000) |}
  | None => ret {| current := Num 0; progress_duration := Num 0 |}
  end.

(** Lines 331-333. *)
Definition isPreviewPlaying : M bool :=
  w <- get ;;
  match audioElement w with
  | Some el => ret (negb (paused el))
  | None => ret false
  end.

(** The two closures [onPreviewProgress] can return. *)
Inductive Unsubscriber : Type :=
| unsubscribe_nothing                   (* () => {} *)
| unsubscribe_handler (handler : nat).  (* removes [handler] if the element exists *)

(** Lines 338-354; a callback is known by its identity. *)
Definition onPreviewProgress (callback : nat) : M Unsubscriber :=
  w <- get ;;
  match audioElement w with
  | None => ret unsubscribe_nothing
  | Some _ =>
      let handler := next_handler w in
      modify (set_next_handler (S handler)) ;;
      element_set (AddListener "timeupdate" handler)
        (fun el => with_listeners (timeupdate_listeners el ++ [(handler, callback)]) el) ;;
      ret (unsubscribe_handler handler)
  end.

(** Calling the closure returned by [onPreviewProgress]. *)
Definition unsubscribe (u : Unsubscriber) : M unit :=
  match u with
  | unsubscribe_nothing => ret tt
  | unsubscribe_handler handler =>
      w <- get ;;
      match audioElement w with
      | Some _ =>
          element_set (RemoveListener "timeupdate" handler)
            (fun el => with_listeners
                         (filter (fun hc => negb (Nat.eqb (fst hc) handler))
                                 (timeupdate_listeners el)) el)
      | None => ret tt
      end
  end.

(** Lines 361-383. *)
Definition playWithConnectAPI (trackUri accessToken : string) : M unit :=
  response <- fetch "PUT" "https://api.spotify.com/v1/me/player/play"
                accessToken [trackUri] (connectFetch env) ;;
  if negb (ok response) then
    error <- try_catch (json response) (fun _ => ret {| error_message := None |}) ;;
    throw (Error (or_else (error_message error) "No active Spotify device found"))
  else ret tt.

Record PlayResult : Type := {
  type : PlaybackType;
  track : SpotifyTrack;
  autoplayBlocked : option bool       (* autoplayBlocked?: boolean *)
}.

(** The three strategies of [playTrack], each one block of its body in the
    order of the source; [Some result] stands for the [return] inside the
    block, [None] for falling through to the code after it. *)

(** Strategy 1: Web Playback SDK (non-iOS only, requires Premium). *)
Definition strategy_sdk (track : SpotifyTrack) (trackUri accessToken : string)
    : M (option PlayResult) :=
  if negb isIOSDevice then
    try_catch
      (w <- get ;;
       (if negb (truthy (deviceId w))
        then initializeSpotifyPlayer accessToken ;; ret tt
        else ret tt) ;;
       playWithSDK trackUri accessToken ;;
       ret (Some {| type := full; track := track; autoplayBlocked := None |}))
      (fun error =>
         emit (ConsoleLog ("SDK playback failed, trying fallbacks: "
                             ++ message error)) ;;
         ret None)
  else ret None.

(** Strategy 2: preview playback (30 s clip via HTML5 audio). *)
Definition strategy_preview (track : SpotifyTrack) (volume : number)
    : M (option PlayResult) :=
  if truthy (preview_url track) then
    try_catch
      (playPreview (or_else (preview_url track) "") volume ;;
       ret (Some {| type := preview; track := track; autoplayBlocked := None |}))
      (fun error =>
         if instanceof_AutoplayBlockedError error then
           ret (Some {| type := preview; track := track;
                        autoplayBlocked := Some true |})
         else
           emit (ConsoleLog ("Preview playback failed, trying Connect API: "
                               ++ message error)) ;;
           ret None)
  else ret None.

(** Strategy 3: Spotify Connect API (the user's active device). *)
Definition strategy_connect (track : SpotifyTrack) (trackUri accessToken : string)
    : M (option PlayResult) :=
  try_catch
    (playWithConnectAPI trackUri accessToken ;;
     ret (Some {| type := full; track := track; autoplayBlocked := None |}))
    (fun error =>
       emit (ConsoleLog ("Connect API failed: " ++ message error)) ;;
       ret None).

(** Lines 391-453. *)
Definition playTrack (trackId : string) (accessToken : option string)
    (volume : number) : M PlayResult :=
  if negb (truthy accessToken) then
    throw (Error "Please log in with Spotify to play tracks.")
  else
    let accessToken := or_else accessToken "" in
    track <- try_catch (getTrack trackId accessToken)
               (fun _ => throw (Error "Failed to fetch track details")) ;;
    let trackUri := "spotify:track:" ++ trackId in
    s1 <- strategy_sdk track trackUri accessToken ;;
    match s1 with
    | Some result => ret result
    | None =>
        s2 <- strategy_preview track volume ;;
        match s2 with
        | Some result => ret result
        | None =>
            s3 <- strategy_connect track trackUri accessToken ;;
            match s3 with
            | Some result => ret result
            | None =>
                throw (Error
                  "Could not play track. Please open Spotify on a device and try again.")
            end
        end
    end.

(** Lines 491-519. *)
Definition loadTrack (trackId : string) (accessToken : option string)
    (volume : number) : M PlayResult :=
  if negb (truthy accessToken) then
    throw (Error "Please log in with Spotify to play tracks.")
  else
    let accessToken := or_else accessToken "" in
    track <- getTrack trackId accessToken ;;
    if truthy (preview_url track) then
      preparePreview (or_else (preview_url track) "") volume ;;
      ret {| type := preview; track := track; autoplayBlocked := None |}
    else
      throw (Error
        "This track has no preview available. Please log in for full playback.").

(** Lines 524-530. *)
Definition pause : M unit :=
  w <- get ;;
  match spotifyPlayer w with
  | Some _ =>
      emit (SDKCall SDKPause) ;;
      match sdkPauseOutcome env with None => ret tt | Some e => throw e end
  | None => pausePreview
  end.

(** Lines 535-541. *)
Definition resume : M unit :=
  w <- get ;;
  match spotifyPlayer w with
  | Some _ =>
      emit (SDKCall SDKResume) ;;
      match sdkResumeOutcome env with None => ret tt | Some e => throw e end
  | None => resumePreview
  end.

(** Lines 546-551. *)
Definition stopPlayback : M unit :=
  stopPreview ;;
  w <- get ;;
  match spotifyPlayer w with
  | Some _ => emit (SDKCall SDKPause)
  | None => ret tt
  end.

(** Lines 556-563. *)
Definition disconnectPlayer : M unit :=
  w <- get ;;
  match spotifyPlayer w with
  | Some _ =>
      emit (SDKCall Disconnect) ;;
      modify (set_spotifyPlayer None) ;;
      modify (set_deviceId None)
  | None => ret tt
  end ;;
  stopPreview.

End Player.

(** Every export of [player.ts], and the closure [onPreviewProgress] hands
    out, as one call on the module. *)
Inductive Call : Type :=
| call_initializeSpotifyPlayer (accessToken : string)
| call_playWithSDK (trackUri accessToken : string)
| call_playPreview (previewUrl : string) (volume : number)
| call_preparePreview (previewUrl : string) (volume : number)
| call_unlockAudio
| call_startAutoplayKeepAlive
| call_activateSDKElement
| call_stopAutoplayKeepAlive
| call_stopPreview
| call_pausePreview
| call_resumePreview
| call_setPreviewVolume (volume : number)
| call_getPreviewProgress
| call_isPreviewPlaying
| call_onPreviewProgress (callback : nat)
| call_unsubscribe (u : Unsubscriber)
| call_playTrack (trackId : string) (accessToken : option string) (volume : number)
| call_loadTrack (trackId : string) (accessToken : option string) (volume : number)
| call_pause
| call_resume
| call_stopPlayback
| call_disconnectPlayer
| call_isIOSDevice.

Definition void {A} (m : M A) : M unit := m ;; ret tt.

Definition perform (env : Env) (c : Call) : M unit :=
  match c with
  | call_initializeSpotifyPlayer t => void (initializeSpotifyPlayer env t)
  | call_playWithSDK u t => playWithSDK env u t
  | call_playPreview u v => playPreview env u v
  | call_preparePreview u v => preparePreview u v
  | call_unlockAudio => unlockAudio env
  | call_startAutoplayKeepAlive => startAutoplayKeepAlive env
  | call_activateSDKElement => activateSDKElement
  | call_stopAutoplayKeepAlive => stopAutoplayKeepAlive
  | call_stopPreview => stopPreview
  | call_pausePreview => pausePreview
  | call_resumePreview => resumePreview env
  | call_setPreviewVolume v => setPreviewVolume v
  | call_getPreviewProgress => void getPreviewProgress
  | call_isPreviewPlaying => void isPreviewPlaying
  | call_onPreviewProgress cb => void (onPreviewProgress cb)
  | call_unsubscribe u => unsubscribe u
  | call_playTrack i t v => void (playTrack env i t v)
  | call_loadTrack i t v => void (loadTrack env i t v)
  | call_pause => pause env
  | call_resume => resume env
  | call_stopPlayback => stopPlayback
  | call_disconnectPlayer => disconnectPlayer
  | call_isIOSDevice => ret tt
  end.

(** A page lifetime: calls one after the other, each with the answers the
    surroundings give during it; the world reached and all effects issued.
    A call whose promise rejects or never settles leaves the page running. *)
Fixpoint lifetime (calls : list (Env * Call)) (w : World) : World * list Effect :=
  match calls with
  | [] => (w, [])
  | (env, c) :: rest =>
      let r := perform env c w in
      let '(w', es) := lifetime rest (final r) in
      (w', (effects r ++ es)%list)
  end.

(* ===================================================================== *)
(** ** [store/playerStore.ts]: the player store *)
(* ===================================================================== *)

Module Store.

Record PlayerState : Type := {
  currentTrack : option SpotifyTrack;
  isPlaying : bool;
  playbackType : PlaybackType;
  progress : number;
  volume : number;
  error : option string;
  isLoading : bool
}.

Definition initial : PlayerState :=
  {| currentTrack := None; isPlaying := false; playbackType := null_type;
     progress := Num 0; volume := Num 80; error := None; isLoading := false |}.

(** Each action is [set] with a partial state, merged into the current one. *)
Definition setCurrentTrack (track : SpotifyTrack) (s : PlayerState) : PlayerState :=
  {| currentTrack := Some track; isPlaying := isPlaying s;
     playbackType := playbackType s; progress := Num 0; volume := volume s;
     error := None; isLoading := isLoading s |}.

Definition setIsPlaying (playing : bool) (s : PlayerState) : PlayerState :=
  {| currentTrack := currentTrack s; isPlaying := playing;
     playbackType := playbackType s; progress := progress s; volume := volume s;
     error := error s; isLoading := isLoading s |}.

Definition setPlaybackType (type : PlaybackType) (s : PlayerState) : PlayerState :=
  {| currentTrack := currentTrack s; isPlaying := isPlaying s;
     playbackType := type; progress := progress s; volume := volume s;
     error := error s; isLoading := isLoading s |}.

Definition setProgress (p : number) (s : PlayerState) : PlayerState :=
  {| currentTrack := currentTrack s; isPlaying := isPlaying s;
     playbackType := playbackType s; progress := p; volume := volume s;
     error := error s; isLoading := isLoading s |}.

Definition setVolume (v : number) (s : PlayerState) : PlayerState :=
  let clampedVolume := Math_max (Num 0) (Math_min (Num 100) v) in
  {| currentTrack := currentTrack s; isPlaying := isPlaying s;
     playbackType := playbackType s; progress := progress s;
     volume := clampedVolume;
     error := error s; isLoading := isLoading s |}.

Definition setError (e : option string) (s : PlayerState) : PlayerState :=
  {| currentTrack := currentTrack s; isPlaying := isPlaying s;
     playbackType := playbackType s; progress := progress s; volume := volume s;
     error := e; isLoading := false |}.

Definition setIsLoading (loading : bool) (s : PlayerState) : PlayerState :=
  {| currentTrack := currentTrack s; isPlaying := isPlaying s;
     playbackType := playbackType s; progress := progress s; volume := volume s;
     error := error s; isLoading := loading |}.

Definition clearError (s : PlayerState) : PlayerState :=
  {| currentTrack := currentTrack s; isPlaying := isPlaying s;
     playbackType := playbackType s; progress := progress s; volume := volume s;
     error := None; isLoading := isLoading s |}.

Definition reset (s : PlayerState) : PlayerState :=
  {| currentTrack := None; isPlaying := false; playbackType := null_type;
     progress := Num 0; volume := volume s; error := None; isLoading := false |}.

End Store.

(* ===================================================================== *)
(** ** [hooks/useSpotifyPlayer.ts]: what the UI calls *)
(* ===================================================================== *)

Module Hook.

(** A hook callback works on the store and on the player module; the store
    it leaves is kept beside the run on the module, because an update made
    before an exception stays made. *)
Record HookRun : Type := {
  store_after : Store.PlayerState;
  page : Run unit
}.

(** [stop]: [player.stopPlayback(); reset()]. *)
Definition stop (s : Store.PlayerState) (w : World) : HookRun :=
  let r := stopPlayback w in
  match outcome r with
  | Resolved _ => {| store_after := Store.reset s; page := r |}
  | _ => {| store_after := s; page := r |}
  end.

(** [changeVolume]: [setVolume(newVolume); player.setPreviewVolume(newVolume)]. *)
Definition changeVolume (newVolume : number) (s : Store.PlayerState) (w : World)
    : HookRun :=
  {| store_after := Store.setVolume newVolume s;
     page := setPreviewVolume newVolume w |}.

(** [play]: [player.playTrack(trackId, accessToken)] inside try/catch, the
    volume left to its default of 80. *)
Definition play (env : Env) (accessToken : option string) (trackId : string)
    (s : Store.PlayerState) (w : World) : HookRun :=
  let s1 := Store.clearError (Store.setIsLoading true s) in
  let r := playTrack env trackId accessToken (Num 80) w in
  match outcome r with
  | Resolved result =>
      {| store_after :=
           Store.setIsLoading false
             (Store.setIsPlaying true
                (Store.setPlaybackType (type result)
                   (Store.setCurrentTrack (track result) s1)));
         page := mkRun (Resolved tt) (final r) (effects r) |}
  | Rejected err =>
      {| store_after :=
           Store.setIsLoading false
             (Store.setError
                (Some (if instanceof_Error err then message err
                       else "Failed to play track")) s1);
         page := mkRun (Resolved tt) (final r) (effects r) |}
  | Pending =>
      {| store_after := s1; page := mkRun Pending (final r) (effects r) |}
  end.

(** [pause] (lines 115-122): [await player.pause(); setIsPlaying(false)]
    inside try/catch; in the body [pause] is the function of the player
    module. *)
Definition pause (env : Env) (s : Store.PlayerState) (w : World) : HookRun :=
  let r := pause env w in
  match outcome r with
  | Resolved _ =>
      {| store_after := Store.setIsPlaying false s;
         page := mkRun (Resolved tt) (final r) (effects r) |}
  | Rejected err =>
      {| store_after :=
           Store.setError
             (Some (if instanceof_Error err then message err
                    else "Failed to pause playback")) s;
         page := mkRun (Resolved tt) (final r) (effects r) |}
  | Pending => {| store_after := s; page := mkRun Pending (final r) (effects r) |}
  end.

(** [resume] (lines 125-134): [await player.resume(); setIsPlaying(true)]
    inside try/catch. *)
Definition resume (env : Env) (s : Store.PlayerState) (w : World) : HookRun :=
  let r := resume env w in
  match outcome r with
  | Resolved _ =>
      {| store_after := Store.setIsPlaying true s;
         page := mkRun (Resolved tt) (final r) (effects r) |}
  | Rejected err =>
      {| store_after :=
           Store.setError
             (Some (if instanceof_Error err then message err
                    else "Failed to resume playback")) s;
         page := mkRun (Resolved tt) (final r) (effects r) |}
  | Pending => {| store_after := s; page := mkRun Pending (final r) (effects r) |}
  end.

End Hook.

(* ===================================================================== *)
(** ** Sample scenarios *)
(* ===================================================================== *)

Module Sample.

Definition track_with_preview : SpotifyTrack :=
  {| id := "4uLU6hMCjMI75M1A2tKUQC";
     track_name := "Never Gonna Give You Up";
     artists := [ {| artist_id := "0gxyHStUsqpMadRV0Di1Qt"; artist_name := "Rick Astley" |} ];
     album := {| album_id := "6N9PS4QXF1D0OWPk0Sxtb4";
                 album_name := "Whenever You Need Somebody";
                 images := [ {| image_url := "https://i.scdn.co/image/cover";
                                image_height := 640; image_width := 640 |} ] |};
     duration_ms := 213573%N;
     preview_url := Some "https://p.scdn.co/mp3-preview/clip";
     uri := "spotify:track:4uLU6hMCjMI75M1A2tKUQC";
     external_urls_spotify := "https://open.spotify.com/track/4uLU6hMCjMI75M1A2tKUQC" |}.

Definition track_without_preview : SpotifyTrack :=
  {| id := id track_with_preview;
     track_name := track_name track_with_preview;
     artists := artists track_with_preview;
     album := album track_with_preview;
     duration_ms := duration_ms track_with_preview;
     preview_url := None;
     uri := uri track_with_preview;
     external_urls_spotify := external_urls_spotify track_with_preview |}.

Definition iphone : Navigator :=
  {| userAgent := "Mozilla/5.0 (iPhone; CPU iPhone OS 17_0 like Mac OS X) AppleWebKit/605.1.15";
     platform := "iPhone";
     maxTouchPoints := 5 |}.

Definition desktop : Navigator :=
  {| userAgent := "Mozilla/5.0 (X11; Linux x86_64) AppleWebKit/537.36 Chrome/120.0";
     platform := "Linux x86_64";
     maxTouchPoints := 0 |}.

Definition answer_with (t : SpotifyTrack) : FetchResult SpotifyTrack :=
  FetchResponds {| status := 200; statusText := "OK"; body := Some t |}.

Definition no_active_device : FetchResult ErrorBody :=
  FetchResponds {| status := 404; statusText := "Not Found";
                   body := Some {| error_message := Some "No active device found" |} |}.

(** An iPhone on which [play()] resolves but nothing starts within the
    window, with no Spotify device open elsewhere. *)
Definition iphone_blocked (t : SpotifyTrack) : Env :=
  {| navigator := Some iphone;
     trackFetch := answer_with t;
     sdkScriptLoads := false;
     sdkHasActivateElement := false;
     playerEvent := PSilent;
     sdkPlayFetch := no_active_device;
     connectFetch := no_active_device;
     playOutcome := None;
     startEvents := [];
     pausedAtTimeout := true;
     sdkPauseOutcome := None;
     sdkResumeOutcome := None |}.

(** A desktop browser that cannot reach the SDK host: the script never
    runs, previews start at once. *)
Definition desktop_sdk_unreachable (t : SpotifyTrack) : Env :=
  {| navigator := Some desktop;
     trackFetch := answer_with t;
     sdkScriptLoads := false;
     sdkHasActivateElement := false;
     playerEvent := PSilent;
     sdkPlayFetch := no_active_device;
     connectFetch := no_active_device;
     playOutcome := None;
     startEvents := [EvPlaying];
     pausedAtTimeout := false;
     sdkPauseOutcome := None;
     sdkResumeOutcome := None |}.

(** An iPhone on which the preview starts inside the window. *)
Definition iphone_starts (t : SpotifyTrack) : Env :=
  {| navigator := Some iphone;
     trackFetch := answer_with t;
     sdkScriptLoads := false;
     sdkHasActivateElement := false;
     playerEvent := PSilent;
     sdkPlayFetch := no_active_device;
     connectFetch := no_active_device;
     playOutcome := None;
     startEvents := [EvPause false; EvPlaying];
     pausedAtTimeout := false;
     sdkPauseOutcome := None;
     sdkResumeOutcome := None |}.

(** A desktop browser of a Premium account: the SDK loads, the player
    reports ready, the play command is accepted. *)
Definition desktop_premium (t : SpotifyTrack) : Env :=
  {| navigator := Some desktop;
     trackFetch := answer_with t;
     sdkScriptLoads := true;
     sdkHasActivateElement := true;
     playerEvent := PReady "device-1";
     sdkPlayFetch := FetchResponds {| status := 204; statusText := "No Content";
                                      body := None |};
     connectFetch := no_active_device;
     playOutcome := None;
     startEvents := [EvPlaying];
     pausedAtTimeout := false;
     sdkPauseOutcome := None;
     sdkResumeOutcome := None |}.

(** An iPad that presents itself as a Mac, and a Mac. *)
Definition ipad_as_mac : Navigator :=
  {| userAgent := "Mozilla/5.0 (Macintosh; Intel Mac OS X 10_15_7) AppleWebKit/605.1.15";
     platform := "MacIntel";
     maxTouchPoints := 5 |}.

Definition mac : Navigator :=
  {| userAgent := userAgent ipad_as_mac; platform := "MacIntel"; maxTouchPoints := 0 |}.

Definition with_track_answer (answer : FetchResult SpotifyTrack) (env : Env) : Env :=
  {| navigator := navigator env;
     trackFetch := answer;
     sdkScriptLoads := sdkScriptLoads env;
     sdkHasActivateElement := sdkHasActivateElement env;
     playerEvent := playerEvent env;
     sdkPlayFetch := sdkPlayFetch env;
     connectFetch := connectFetch env;
     playOutcome := playOutcome env;
     startEvents := startEvents env;
     pausedAtTimeout := pausedAtTimeout env;
     sdkPauseOutcome := sdkPauseOutcome env;
     sdkResumeOutcome := sdkResumeOutcome env |}.

(** The account has no Premium subscription: the player reports so. *)
Definition account_error (env : Env) : Env :=
  {| navigator := navigator env;
     trackFetch := trackFetch env;
     sdkScriptLoads := sdkScriptLoads env;
     sdkHasActivateElement := sdkHasActivateElement env;
     playerEvent := PAccountError "This functionality is restricted to premium users only";
     sdkPlayFetch := sdkPlayFetch env;
     connectFetch := connectFetch env;
     playOutcome := playOutcome env;
     startEvents := startEvents env;
     pausedAtTimeout := pausedAtTimeout env;
     sdkPauseOutcome := sdkPauseOutcome env;
     sdkResumeOutcome := sdkResumeOutcome env |}.

(** The element refuses [play()]. *)
Definition refusing_play (env : Env) : Env :=
  {| navigator := navigator env;
     trackFetch := trackFetch env;
     sdkScriptLoads := sdkScriptLoads env;
     sdkHasActivateElement := sdkHasActivateElement env;
     playerEvent := playerEvent env;
     sdkPlayFetch := sdkPlayFetch env;
     connectFetch := connectFetch env;
     playOutcome := Some (mkThrown DOMExceptionC "NotAllowedError"
                            "The request is not allowed by the user agent");
     startEvents := startEvents env;
     pausedAtTimeout := pausedAtTimeout env;
     sdkPauseOutcome := sdkPauseOutcome env;
     sdkResumeOutcome := sdkResumeOutcome env |}.

Definition on (nav : option Navigator) (env : Env) : Env :=
  {| navigator := nav;
     trackFetch := trackFetch env;
     sdkScriptLoads := sdkScriptLoads env;
     sdkHasActivateElement := sdkHasActivateElement env;
     playerEvent := playerEvent env;
     sdkPlayFetch := sdkPlayFetch env;
     connectFetch := connectFetch env;
     playOutcome := playOutcome env;
     startEvents := startEvents env;
     pausedAtTimeout := pausedAtTimeout env;
     sdkPauseOutcome := sdkPauseOutcome env;
     sdkResumeOutcome := sdkResumeOutcome env |}.

End Sample.

(* ===================================================================== *)
(** ** Vocabulary of the properties *)
(* ===================================================================== *)

(** The request for the metadata is answered with the track. *)
Definition metadata_resolves (env : Env) (t : SpotifyTrack) : Prop :=
  exists r, trackFetch env = FetchResponds r /\ ok r = true /\ body r = Some t.

(** The window of [waitForPlaybackStart] elapses: no listener finished the
    race before the 300 ms timer, and the timer finds the element paused. *)
Definition window_elapses_paused (env : Env) : Prop :=
  first_finish (startEvents env) = None /\ pausedAtTimeout env = true.

(** The SDK strategy is skipped or fails: the block falls through to the
    code after it. *)
Definition sdk_falls_through (env : Env) (t : SpotifyTrack)
    (trackId token : string) (w : World) : Prop :=
  outcome (strategy_sdk env t ("spotify:track:" ++ trackId) token w)
    = Resolved None.

(** The remote-device dispatch fails: the request is rejected, or answered
    with a status outside 200..299. *)
Definition connect_fails (env : Env) : Prop :=
  match connectFetch env with
  | FetchRejects _ => True
  | FetchResponds r => ok r = false
  end.

(** Effects of the SDK strategy: loading the vendor script and its 10 s
    timer, any call on the SDK, and the play command addressed to the
    in-page device. *)
Definition is_sdk_effect (e : Effect) : bool :=
  match e with
  | SDKCall _ => true
  | AppendScript _ => true
  | SetTimeout ms => N.eqb ms 10000
  | Fetch method url _ _ =>
      String.eqb method "PUT"
      && prefix "https://api.spotify.com/v1/me/player/play?device_id=" url
  | _ => false
  end.

(** The SDK session as the module and the page hold it. *)
Definition same_sdk_session (w w' : World) : Prop :=
  spotifyPlayer w' = spotifyPlayer w /\ deviceId w' = deviceId w
  /\ window_Spotify w' = window_Spotify w
  /\ onSpotifyWebPlaybackSDKReady w' = onSpotifyWebPlaybackSDKReady w.

(** Worlds a page can be in: those some sequence of calls leads to. *)
Definition reachable (w : World) : Prop :=
  exists calls, fst (lifetime calls initial_world) = w.

(** Keep-alive running implies the element exists and is unlocked. *)
Definition keepAlive_implies_unlocked (w : World) : Prop :=
  keepAliveActive w = true -> audioUnlocked w = true.

(** A policy: a relation every step must keep between the world before and
    after, and the effects that may be issued. *)
Record Policy : Type := {
  rel : World -> World -> Prop;
  allowed : Effect -> Prop;
  rel_refl : forall w, rel w w;
  rel_trans : forall a b c, rel a b -> rel b c -> rel a c
}.

Definition respects (P : Policy) {A} (m : M A) : Prop :=
  forall w, rel P w (final (m w)) /\ Forall (allowed P) (effects (m w)).

(** Policy of the calls that leave the gesture flags alone or raise
    [audioUnlocked]: the flag is never lowered, keep-alive never started. *)
Definition quiet_rel (w w' : World) : Prop :=
  (audioUnlocked w = true -> audioUnlocked w' = true)
  /\ (keepAliveActive w' = true -> keepAliveActive w = true).

Definition quiet : Policy :=
  {| rel := quiet_rel;
     allowed := fun _ => True;
     rel_refl := fun w => conj (fun H => H) (fun H => H);
     rel_trans := fun a b c (H1 : quiet_rel a b) (H2 : quiet_rel b c) =>
       match H1, H2 with
       | conj u1 k1, conj u2 k2 =>
           conj (fun H => u2 (u1 H)) (fun H => k1 (k2 H))
       end |}.

(** Policy of a run that stays away from the SDK. *)
Definition no_sdk : Policy :=
  {| rel := same_sdk_session;
     allowed := fun e => is_sdk_effect e = false;
     rel_refl := fun w => conj eq_refl (conj eq_refl (conj eq_refl eq_refl));
     rel_trans := fun a b c (H1 : same_sdk_session a b) (H2 : same_sdk_session b c) =>
       match H1, H2 with
       | conj p1 (conj p2 (conj p3 p4)), conj q1 (conj q2 (conj q3 q4)) =>
           conj (eq_trans q1 p1)
             (conj (eq_trans q2 p2) (conj (eq_trans q3 p3) (eq_trans q4 p4)))
       end |}.

(** Policy of a run that never calls [pause()] on the element. *)
Definition no_pause : Policy :=
  {| rel := fun _ _ => True;
     allowed := fun e => e <> AudioCall PauseOp;
     rel_refl := fun _ => I;
     rel_trans := fun _ _ _ _ _ => I |}.

(** Script elements appended to the document among some effects. *)
Definition scripts_appended (es : list Effect) : nat :=
  List.length (filter (fun e => match e with AppendScript _ => true | _ => false end) es).

(** A sequence of calls of [initializeSpotifyPlayer], each with the answers
    of the surroundings during it and its access token. *)
Definition initialize_calls (calls : list (Env * string)) : list (Env * Call) :=
  map (fun c => (fst c, call_initializeSpotifyPlayer (snd c))) calls.

(** *** The page, turn by turn

    [initializeSpotifyPlayer] hands back its promise as soon as the
    executor (lines 60-82) has run.  What settles the promise comes in later
    turns of the event loop: the appended script runs, the player reports.
    Other calls of [initializeSpotifyPlayer] can fall in between. *)

(** Lines 60-82, the executor alone. *)
Definition initialize_executor (env : Env) (accessToken : string) : M unit :=
  w <- get ;;
  if window_Spotify w then createPlayer env accessToken
  else
    emit (AppendScript "https://sdk.scdn.co/spotify-player.js") ;;
    modify (set_onReady (Some accessToken)) ;;
    emit (SetTimeout 10000%N).

(** An appended script runs: it defines [window.Spotify] and calls
    [window.onSpotifyWebPlaybackSDKReady], the closure of line 75 that the
    latest executor assigned. *)
Definition sdk_script_runs (env : Env) : M unit :=
  modify (set_window_Spotify true) ;;
  w <- get ;;
  match onSpotifyWebPlaybackSDKReady w with
  | Some accessToken => createPlayer env accessToken
  | None => ret tt
  end.

(** The player reports: of the listeners of lines 98-124 only 'ready'
    changes the module. *)
Definition player_reports (ev : PlayerEvent) : M unit :=
  match ev with
  | PReady device_id =>
      emit (ConsoleLog ("Spotify Player ready with device ID: " ++ device_id)) ;;
      modify (set_deviceId (Some device_id))
  | _ => ret tt
  end.

Inductive Turn : Type :=
| CallInitialize (accessToken : string)
| ScriptRuns
| PlayerReports (ev : PlayerEvent).

Definition turn (env : Env) (t : Turn) : M unit :=
  match t with
  | CallInitialize accessToken => initialize_executor env accessToken
  | ScriptRuns => sdk_script_runs env
  | PlayerReports ev => player_reports ev
  end.

(** The page after a sequence of turns, in any order, and the effects
    issued during them. *)
Fixpoint page (env : Env) (turns : list Turn) (w : World) : World * list Effect :=
  match turns with
  | [] => (w, [])
  | t :: rest =>
      let r := turn env t w in
      let '(w', es) := page env rest (final r) in
      (w', (effects r ++ es)%list)
  end.

(** The calls of [initializeSpotifyPlayer] among the turns that are made
    before a script has run, [loaded] telling whether the SDK is defined at
    the start. *)
Fixpoint calls_before_load (loaded : bool) (turns : list Turn) : nat :=
  match turns with
  | [] => 0
  | CallInitialize _ :: rest =>
      (if loaded then 0 else 1) + calls_before_load loaded rest
  | ScriptRuns :: rest => calls_before_load true rest
  | PlayerReports _ :: rest => calls_before_load loaded rest
  end.

(* ===================================================================== *)
(** ** [lib/qr/parser.ts]: track identifiers out of scanned text *)
(* ===================================================================== *)

Module Parser.

Record ParseResult : Type := {
  isValid : bool;
  trackId : option string;       (* string | null *)
  error : option string          (* string | null *)
}.

(** The character class [[a-zA-Z0-9]]. *)
Definition is_alnum (c : ascii) : bool :=
  let n := nat_of_ascii c in
  (Nat.leb 48 n && Nat.leb n 57) || (Nat.leb 65 n && Nat.leb n 90)
  || (Nat.leb 97 n && Nat.leb n 122).

Fixpoint all_alnum (s : string) : bool :=
  match s with
  | EmptyString => true
  | String c r => is_alnum c && all_alnum r
  end.

(** What the greedy group [([a-zA-Z0-9]+)] takes at the head of [s]: the
    longest run of characters of the class. *)
Fixpoint alnum_run (s : string) : string :=
  match s with
  | EmptyString => EmptyString
  | String c r => if is_alnum c then String c (alnum_run r) else EmptyString
  end.

(** [s] without its prefix [p], when [p] is a prefix of [s]. *)
Fixpoint after_prefix (p s : string) : option string :=
  match p with
  | EmptyString => Some s
  | String a p' =>
      match s with
      | EmptyString => None
      | String b s' => if Ascii.eqb a b then after_prefix p' s' else None
      end
  end.

(** A match of [/literal([a-zA-Z0-9]+)/] starting at the head of [s]:
    the text of group 1. *)
Definition match_here (literal s : string) : option string :=
  match after_prefix literal s with
  | Some rest =>
      match alnum_run rest with
      | EmptyString => None
      | String c r => Some (String c r)
      end
  | None => None
  end.

(** [s.match(/literal([a-zA-Z0-9]+)/)]: the match at the leftmost position
    where there is one; [match[1]]. *)
Fixpoint regex_match (literal s : string) : option string :=
  match match_here literal s with
  | Some id => Some id
  | None =>
      match s with
      | EmptyString => None
      | String _ r => regex_match literal r
      end
  end.

(** [SPOTIFY_PATTERNS] (lines 10-17): each pattern is a literal text
    followed by the group [([a-zA-Z0-9]+)]; the literal texts, in order. *)
Definition SPOTIFY_PATTERNS : list string :=
  [ "open.spotify.com/track/"; "spotify:track:"; "spotify.link/" ].

(** The [for] loop of [parseSpotifyUrl]: the first pattern that matches. *)
Fixpoint first_match (patterns : list string) (qrCodeData : string) : option string :=
  match patterns with
  | [] => None
  | pattern :: rest =>
      match regex_match pattern qrCodeData with
      | Some id => Some id
      | None => first_match rest qrCodeData
      end
  end.

(** [parseSpotifyUrl] (lines 24-51). *)
Definition parseSpotifyUrl (qrCodeData : string) : ParseResult :=
  if negb (truthy (Some qrCodeData)) then
    {| isValid := false; trackId := None; error := Some "Invalid QR code data" |}
  else
    match first_match SPOTIFY_PATTERNS qrCodeData with
    | Some id => {| isValid := true; trackId := Some id; error := None |}
    | None =>
        {| isValid := false; trackId := None;
           error := Some "QR code does not contain a Spotify track link" |}
    end.

(** [isValidTrackId] (lines 58-60): [/^[a-zA-Z0-9]{22}$/]. *)
Definition isValidTrackId (trackId : string) : bool :=
  Nat.eqb (String.length trackId) 22 && all_alnum trackId.

(** [buildSpotifyUrl] (lines 67-69) and [buildSpotifyUri] (lines 76-78). *)
Definition buildSpotifyUrl (trackId : string) : string :=
  "https://open.spotify.com/track/" ++ trackId.

Definition buildSpotifyUri (trackId : string) : string :=
  "spotify:track:" ++ trackId.

(** A text the group stops at: empty, or starting outside the class. *)
Definition stops_group (s : string) : bool :=
  match s with
  | EmptyString => true
  | String c _ => negb (is_alnum c)
  end.

End Parser.

(* ===================================================================== *)
(** ** [store/scanStore.ts] and the scan handler of [hooks/useQRScanner.ts] *)
(* ===================================================================== *)

Module ScanStore.

Record ScanState : Type := {
  isScanning : bool;
  lastScannedCode : option string;
  lastTrackId : option string;
  error : option string;
  isCameraReady : bool
}.

Definition initial : ScanState :=
  {| isScanning := false; lastScannedCode := None; lastTrackId := None;
     error := None; isCameraReady := false |}.

Definition startScanning (s : ScanState) : ScanState :=
  {| isScanning := true; lastScannedCode := lastScannedCode s;
     lastTrackId := lastTrackId s; error := None;
     isCameraReady := isCameraReady s |}.

Definition stopScanning (s : ScanState) : ScanState :=
  {| isScanning := false; lastScannedCode := lastScannedCode s;
     lastTrackId := lastTrackId s; error := error s; isCameraReady := false |}.

Definition setScannedCode (code trackId : string) (s : ScanState) : ScanState :=
  {| isScanning := isScanning s; lastScannedCode := Some code;
     lastTrackId := Some trackId; error := None;
     isCameraReady := isCameraReady s |}.

Definition setError (e : option string) (s : ScanState) : ScanState :=
  {| isScanning := isScanning s; lastScannedCode := lastScannedCode s;
     lastTrackId := lastTrackId s; error := e;
     isCameraReady := isCameraReady s |}.

Definition clearError (s : ScanState) : ScanState := setError None s.

Definition setCameraReady (ready : bool) (s : ScanState) : ScanState :=
  {| isScanning := isScanning s; lastScannedCode := lastScannedCode s;
     lastTrackId := lastTrackId s; error := error s; isCameraReady := ready |}.

Definition reset (s : ScanState) : ScanState := initial.

End ScanStore.

Module Scanner.

(** What [handleScanSuccess] works on: the scan store, the time of the last
    scan it let through ([lastScanTimeRef], in ms), and the track ids it has
    handed to [onScanSuccess], oldest first. *)
Record Scanner : Type := {
  store : ScanStore.ScanState;
  lastScanTime : Z;
  delivered : list string
}.

Definition initial : Scanner :=
  {| store := ScanStore.initial; lastScanTime := 0%Z; delivered := [] |}.

Definition SCAN_COOLDOWN : Z := 2000.

(** [handleScanSuccess] (lines 33-61); [now] is what [Date.now()] answers,
    [hasCallback] tells whether [onScanSuccess] was given. *)
Definition handleScanSuccess (hasCallback : bool) (now : Z) (decodedText : string)
    (h : Scanner) : Scanner :=
  if (now - lastScanTime h <? SCAN_COOLDOWN)%Z then h
  else
    let parseResult := Parser.parseSpotifyUrl decodedText in
    if Parser.isValid parseResult && truthy (Parser.trackId parseResult) then
      let trackId := or_else (Parser.trackId parseResult) "" in
      {| store := ScanStore.clearError
                    (ScanStore.setScannedCode decodedText trackId (store h));
         lastScanTime := now;
         delivered := if hasCallback then (delivered h ++ [trackId])%list
                      else delivered h |}
    else
      {| store := ScanStore.setError
                    (Some (or_else (Parser.error parseResult) "Invalid QR code"))
                    (store h);
         lastScanTime := now;
         delivered := delivered h |}.

(** Decoded texts arriving one after the other, each with its time. *)
Fixpoint scans (hasCallback : bool) (events : list (Z * string)) (h : Scanner)
    : Scanner :=
  match events with
  | [] => h
  | (now, text) :: rest => scans hasCallback rest (handleScanSuccess hasCallback now text h)
  end.

End Scanner.

(* ===================================================================== *)
(** ** Further vocabulary *)
(* ===================================================================== *)

(** The gesture flags and the SDK session are as they were. *)
Definition same_flags_and_session (w w' : World) : Prop :=
  audioUnlocked w' = audioUnlocked w
  /\ keepAliveActive w' = keepAliveActive w
  /\ same_sdk_session w w'.

(** Policy of a run that prepares the element at most: no [play()] on it,
    nothing of the SDK, flags and session untouched. *)
Definition prepares_only : Policy :=
  {| rel := same_flags_and_session;
     allowed := fun e => e <> AudioCall Play /\ is_sdk_effect e = false;
     rel_refl := fun w =>
       conj eq_refl (conj eq_refl (rel_refl no_sdk w));
     rel_trans := fun a b c (H1 : same_flags_and_session a b)
                            (H2 : same_flags_and_session b c) =>
       match H1, H2 with
       | conj u1 (conj k1 s1), conj u2 (conj k2 s2) =>
           conj (eq_trans u2 u1)
             (conj (eq_trans k2 k1) (rel_trans no_sdk a b c s1 s2))
       end |}.

(** Effects on the preview side: the audio element and the request of the
    remote-device dispatch (the PUT without a device id). *)
Definition is_preview_or_connect_effect (e : Effect) : bool :=
  match e with
  | CreateAudio => true
  | AudioCall _ => true
  | SetTimeout ms => N.eqb ms 300
  | Fetch method url _ _ =>
      String.eqb method "PUT"
      && String.eqb url "https://api.spotify.com/v1/me/player/play"
  | _ => false
  end.

(** The element and the gesture flags are as they were. *)
Definition same_preview_engine (w w' : World) : Prop :=
  audioElement w' = audioElement w
  /\ audioUnlocked w' = audioUnlocked w
  /\ keepAliveActive w' = keepAliveActive w
  /\ next_handler w' = next_handler w.

(** Policy of a run that stays away from the preview engine. *)
Definition no_preview : Policy :=
  {| rel := same_preview_engine;
     allowed := fun e => is_preview_or_connect_effect e = false;
     rel_refl := fun w => conj eq_refl (conj eq_refl (conj eq_refl eq_refl));
     rel_trans := fun a b c (H1 : same_preview_engine a b)
                            (H2 : same_preview_engine b c) =>
       match H1, H2 with
       | conj p1 (conj p2 (conj p3 p4)), conj q1 (conj q2 (conj q3 q4)) =>
           conj (eq_trans q1 p1)
             (conj (eq_trans q2 p2) (conj (eq_trans q3 p3) (eq_trans q4 p4)))
       end |}.

(** Effects of initialising the SDK: loading the script with its timer,
    and any call on the SDK player. *)
Definition is_sdk_init_effect (e : Effect) : bool :=
  match e with
  | SDKCall _ => true
  | AppendScript _ => true
  | SetTimeout ms => N.eqb ms 10000
  | _ => false
  end.

(** Policy of a run that does not initialise the SDK. *)
Definition no_sdk_init : Policy :=
  {| rel := same_sdk_session;
     allowed := fun e => is_sdk_init_effect e = false;
     rel_refl := rel_refl no_sdk;
     rel_trans := rel_trans no_sdk |}.

Definition metadata_failed : Thrown :=
  Error "Failed to fetch track details".
Definition nothing_could_play : Thrown :=
  Error "Could not play track. Please open Spotify on a device and try again.".

(* ===================================================================== *)
(** * Properties *)
(* ===================================================================== *)

(** ** The model on sample scenarios *)

Example isIOSDevice_iphone :
  isIOSDevice (Sample.iphone_starts Sample.track_with_preview) = true.
Proof. reflexivity. Qed.

Example isIOSDevice_ipad_as_mac :
  isIOSDevice (Sample.on (Some Sample.ipad_as_mac)
                 (Sample.iphone_starts Sample.track_with_preview)) = true.
Proof. reflexivity. Qed.

Example isIOSDevice_mac :
  isIOSDevice (Sample.on (Some Sample.mac)
                 (Sample.iphone_starts Sample.track_with_preview)) = false.
Proof. reflexivity. Qed.

Example isIOSDevice_without_navigator :
  isIOSDevice (Sample.on None (Sample.iphone_starts Sample.track_with_preview)) = false.
Proof. reflexivity. Qed.

Example isAutoplayBlockedError_NotAllowedError :
  isAutoplayBlockedError
    (mkThrown DOMExceptionC "NotAllowedError"
              "The request is not allowed by the user agent") = true.
Proof. reflexivity. Qed.

Example isAutoplayBlockedError_network :
  isAutoplayBlockedError (Error "Failed to load because no supported source was found")
    = false.
Proof. reflexivity. Qed.

(** SDK playback succeeds: the result is [{type: 'full', track}], the audio
    element is not even created and the remote dispatch is not asked. *)
Example playTrack_desktop_premium :
  playTrack (Sample.desktop_premium Sample.track_with_preview)
    "4uLU6hMCjMI75M1A2tKUQC" (Some "token") (Num 80) initial_world
  = mkRun
      (Resolved {| type := full; track := Sample.track_with_preview;
                   autoplayBlocked := None |})
      (mkWorld None false false
         (Some {| player_name := "Altster QR Scanner"; oauth_token := "token";
                  player_volume := Num (8 # 10); has_activateElement := true |})
         (Some "device-1") true (Some "token") 0)
      [ Fetch "GET" "https://api.spotify.com/v1/tracks/4uLU6hMCjMI75M1A2tKUQC"
              "Bearer token" [];
        AppendScript "https://sdk.scdn.co/spotify-player.js";
        SetTimeout 10000;
        SDKCall (NewPlayer "Altster QR Scanner" "token");
        SDKCall (AddPlayerListener "initialization_error");
        SDKCall (AddPlayerListener "authentication_error");
        SDKCall (AddPlayerListener "account_error");
        SDKCall (AddPlayerListener "playback_error");
        SDKCall (AddPlayerListener "ready");
        SDKCall (AddPlayerListener "not_ready");
        SDKCall Connect;
        ConsoleLog "Spotify Player ready with device ID: device-1";
        Fetch "PUT" "https://api.spotify.com/v1/me/player/play?device_id=device-1"
              "Bearer token" ["spotify:track:4uLU6hMCjMI75M1A2tKUQC"] ].
Proof. reflexivity. Qed.

(** The preview starts inside the window: [{type: 'preview', track}]
    without [autoplayBlocked], keep-alive bookkeeping off. *)
Example playTrack_iphone_starts :
  let r := playTrack (Sample.iphone_starts Sample.track_with_preview)
             "4uLU6hMCjMI75M1A2tKUQC" (Some "token") (Num 80)
             (final (startAutoplayKeepAlive
                       (Sample.iphone_starts Sample.track_with_preview)
                       initial_world)) in
  outcome r = Resolved {| type := preview; track := Sample.track_with_preview;
                          autoplayBlocked := None |}
  /\ keepAliveActive (final r) = false
  /\ audioUnlocked (final r) = true
  /\ option_map paused (audioElement (final r)) = Some false.
Proof. cbv zeta. repeat (split; [reflexivity|]). reflexivity. Qed.

(** The SDK host cannot be reached: the script is appended, the 10 s timer
    rejects, and the preview plays. *)
Example playTrack_desktop_sdk_unreachable :
  let r := playTrack (Sample.desktop_sdk_unreachable Sample.track_with_preview)
             "4uLU6hMCjMI75M1A2tKUQC" (Some "token") (Num 80) initial_world in
  outcome r = Resolved {| type := preview; track := Sample.track_with_preview;
                          autoplayBlocked := None |}
  /\ firstn 4 (effects r) =
       [ Fetch "GET" "https://api.spotify.com/v1/tracks/4uLU6hMCjMI75M1A2tKUQC"
               "Bearer token" [];
         AppendScript "https://sdk.scdn.co/spotify-player.js";
         SetTimeout 10000;
         ConsoleLog "SDK playback failed, trying fallbacks: Spotify Player SDK failed to load" ].
Proof. cbv zeta. split; reflexivity. Qed.

(** Running a computation as far as the known answers allow. *)
Ltac run :=
  cbv beta iota zeta delta
    [bind try_catch get modify emit ret throw never when void
     update_element element_set element_pause element_load json fetch].

(** ** How outcomes flow through [bind] and [try_catch] *)

Lemma outcome_bind {A B} (m : M A) (f : A -> M B) w :
  outcome (bind m f w) =
    match outcome (m w) with
    | Resolved a => outcome (f a (final (m w)))
    | Rejected e => Rejected e
    | Pending => Pending
    end.
Proof.
  unfold bind. destruct (m w) as [[a|e|] w1 es1]; cbn; try reflexivity.
  destruct (f a w1); reflexivity.
Qed.

Lemma final_bind {A B} (m : M A) (f : A -> M B) w :
  final (bind m f w) =
    match outcome (m w) with
    | Resolved a => final (f a (final (m w)))
    | _ => final (m w)
    end.
Proof.
  unfold bind. destruct (m w) as [[a|e|] w1 es1]; cbn; try reflexivity.
  destruct (f a w1); reflexivity.
Qed.

Lemma effects_bind {A B} (m : M A) (f : A -> M B) w :
  effects (bind m f w) =
    match outcome (m w) with
    | Resolved a => (effects (m w) ++ effects (f a (final (m w))))%list
    | _ => effects (m w)
    end.
Proof.
  unfold bind. destruct (m w) as [[a|e|] w1 es1]; cbn; try reflexivity.
  destruct (f a w1); reflexivity.
Qed.

Lemma outcome_try_catch {A} (m : M A) (h : Thrown -> M A) w :
  outcome (try_catch m h w) =
    match outcome (m w) with
    | Rejected e => outcome (h e (final (m w)))
    | o => o
    end.
Proof.
  unfold try_catch. destruct (m w) as [[a|e|] w1 es1]; cbn; try reflexivity.
  destruct (h e w1); reflexivity.
Qed.

Lemma final_try_catch {A} (m : M A) (h : Thrown -> M A) w :
  final (try_catch m h w) =
    match outcome (m w) with
    | Rejected e => final (h e (final (m w)))
    | _ => final (m w)
    end.
Proof.
  unfold try_catch. destruct (m w) as [[a|e|] w1 es1]; cbn; try reflexivity.
  destruct (h e w1); reflexivity.
Qed.

Lemma effects_try_catch {A} (m : M A) (h : Thrown -> M A) w :
  effects (try_catch m h w) =
    match outcome (m w) with
    | Rejected e => (effects (m w) ++ effects (h e (final (m w))))%list
    | _ => effects (m w)
    end.
Proof.
  unfold try_catch. destruct (m w) as [[a|e|] w1 es1]; cbn; try reflexivity.
  destruct (h e w1); reflexivity.
Qed.

Lemma bind_get {B} (k : World -> M B) w : bind get k w = k w w.
Proof. unfold bind, get. destruct (k w w); reflexivity. Qed.

Lemma bind_ret {A B} (a : A) (k : A -> M B) w : bind (ret a) k w = k a w.
Proof. unfold bind, ret. destruct (k a w); reflexivity. Qed.

Lemma effects_bind_emit {B} (e : Effect) (k : unit -> M B) w :
  effects (bind (emit e) k w) = e :: effects (k tt w).
Proof. unfold bind, emit. destruct (k tt w); reflexivity. Qed.

Lemma effects_bind_modify {B} (f : World -> World) (k : unit -> M B) w :
  effects (bind (modify f) k w) = effects (k tt (f w)).
Proof. unfold bind, modify. destruct (k tt (f w)); reflexivity. Qed.

Lemma bind_assoc {A B C} (m : M A) (f : A -> M B) (g : B -> M C) w :
  bind (bind m f) g w = bind m (fun a => bind (f a) g) w.
Proof.
  unfold bind. destruct (m w) as [[a|e|] w1 es1]; try reflexivity.
  destruct (f a w1) as [[b|e|] w2 es2]; try reflexivity.
  destruct (g b w2) as [o w3 es3]. rewrite app_assoc. reflexivity.
Qed.

(** ** Values *)

Lemma truthy_Some_nonempty (s : string) :
  s <> "" -> truthy (Some s) = true /\ or_else (Some s) "" = s.
Proof. destruct s; [congruence | split; reflexivity]. Qed.

(** A volume the data model allows is one the element accepts. *)
Lemma volume_in_range_accepted (v : number) :
  between 0 100 v = true -> between 0 1 (div v (Num 100)) = true.
Proof.
  destruct v as [|q]; cbn; [discriminate|].
  rewrite !andb_true_iff, !Qle_bool_iff.
  intros [H0 H100]. split.
  - apply Qle_shift_div_l; [reflexivity | now rewrite Qmult_0_l].
  - apply Qle_shift_div_r; [reflexivity | now rewrite Qmult_1_l].
Qed.

(** The error [playPreview] raises for a blocked start is recognised by its
    own handler: its message contains the word the classifier looks for. *)
Lemma AutoplayBlockedError_is_recognised :
  isAutoplayBlockedError AutoplayBlockedError = true.
Proof. reflexivity. Qed.

(** ** The metadata request *)

Lemma getTrack_resolves env trackId token t w :
  metadata_resolves env t ->
  getTrack env trackId token w =
    mkRun (Resolved t) w
      [Fetch "GET" (BASE_URL ++ "/tracks/" ++ trackId) ("Bearer " ++ token) []].
Proof.
  intros (r & Hf & Hok & Hb).
  unfold getTrack, fetch. rewrite Hf. cbn. rewrite Hok. cbn.
  unfold json. rewrite Hb. reflexivity.
Qed.

(** A call of [getTrack] always shows among the effects: its first effect
    is the request to the metadata endpoint. *)
Lemma getTrack_issues_request env trackId token w :
  exists rest,
    effects (getTrack env trackId token w) =
      Fetch "GET" (BASE_URL ++ "/tracks/" ++ trackId) ("Bearer " ++ token) [] :: rest.
Proof.
  unfold getTrack, fetch. rewrite bind_assoc, effects_bind_emit.
  eexists. reflexivity.
Qed.

(** [getTrack] never touches the module state, whatever the answer. *)
Lemma getTrack_final env trackId token w :
  final (getTrack env trackId token w) = w.
Proof.
  unfold getTrack, fetch, json.
  destruct (trackFetch env) as [e|r]; cbn; [reflexivity|].
  destruct (ok r); cbn.
  - destruct (body r); reflexivity.
  - destruct (Nat.eqb (status r) 404); [reflexivity|].
    destruct (Nat.eqb (status r) 401); reflexivity.
Qed.

(** ** The start-detection window *)

Lemma waitForPlaybackStart_elapsed env w :
  window_elapses_paused env ->
  outcome (waitForPlaybackStart env w) = Resolved false.
Proof.
  intros [Hf Hp]. unfold waitForPlaybackStart. rewrite Hf, Hp. reflexivity.
Qed.

(** A preview whose start window elapses with the element paused ends in
    an [AutoplayBlockedError], from every state of the module. *)
Lemma playPreview_blocked env url v w :
  between 0 100 v = true ->
  playOutcome env = None ->
  window_elapses_paused env ->
  outcome (playPreview env url v w) = Rejected AutoplayBlockedError.
Proof.
  intros Hv Hplay [Hf Hp].
  apply volume_in_range_accepted in Hv.
  unfold playPreview, element_set_volume, element_play, waitForPlaybackStart.
  rewrite Hplay, Hf, Hp.
  destruct (div v (Num 100)) as [|q] eqn:Hd; [discriminate Hv|].
  rewrite Hv.
  destruct w as [[el|] u [|] sp d ws cb nh]; reflexivity.
Qed.

(** ** The orchestrator *)

Lemma strategy_sdk_skipped_on_iOS env t uri token w :
  isIOSDevice env = true ->
  strategy_sdk env t uri token w = mkRun (Resolved None) w [].
Proof. unfold strategy_sdk. intros ->. reflexivity. Qed.

(** The preview strategy turns the blocked start into a result. *)
Lemma strategy_preview_blocked env t v w :
  truthy (preview_url t) = true ->
  between 0 100 v = true ->
  playOutcome env = None ->
  window_elapses_paused env ->
  outcome (strategy_preview env t v w) =
    Resolved (Some {| type := preview; track := t; autoplayBlocked := Some true |}).
Proof.
  intros Hurl Hv Hplay Hwin.
  unfold strategy_preview. rewrite Hurl.
  rewrite outcome_try_catch, outcome_bind.
  rewrite (playPreview_blocked env _ v w Hv Hplay Hwin).
  reflexivity.
Qed.

(** C1.  Whenever [playTrack] reaches the preview attempt for a track with
    a preview URL (credential present, metadata fetched, SDK strategy
    skipped or failed, the element accepts the volume and [play()]
    resolves) and the 300 ms start-detection window elapses with the
    element still paused, the call resolves with
    [{type: 'preview', track, autoplayBlocked: true}]; it does not reject. *)
Theorem playTrack_autoplay_blocked_is_a_result :
  forall env trackId token volume w t,
    token <> "" ->
    metadata_resolves env t ->
    sdk_falls_through env t trackId token w ->
    truthy (preview_url t) = true ->
    between 0 100 volume = true ->
    playOutcome env = None ->
    window_elapses_paused env ->
    outcome (playTrack env trackId (Some token) volume w) =
      Resolved {| type := preview; track := t; autoplayBlocked := Some true |}.
Proof.
  intros env trackId token volume w t Htok Hmeta Hsdk Hurl Hv Hplay Hwin.
  destruct (truthy_Some_nonempty token Htok) as [Ht Ho].
  unfold playTrack. rewrite Ht, Ho. cbn [negb].
  pose proof (getTrack_resolves env trackId token t w Hmeta) as Hg.
  rewrite outcome_bind, outcome_try_catch, final_try_catch, Hg. cbn [outcome final].
  rewrite outcome_bind. unfold sdk_falls_through in Hsdk. rewrite Hsdk.
  rewrite outcome_bind.
  rewrite (strategy_preview_blocked env t volume _ Hurl Hv Hplay Hwin).
  reflexivity.
Qed.

Lemma playTrack_autoplay_blocked_witness :
  outcome (playTrack (Sample.iphone_blocked Sample.track_with_preview)
             "4uLU6hMCjMI75M1A2tKUQC" (Some "token") (Num 80) initial_world) =
    Resolved {| type := preview; track := Sample.track_with_preview;
                autoplayBlocked := Some true |}.
Proof.
  apply (playTrack_autoplay_blocked_is_a_result
           (Sample.iphone_blocked Sample.track_with_preview)
           "4uLU6hMCjMI75M1A2tKUQC" "token" (Num 80) initial_world
           Sample.track_with_preview).
  - discriminate.
  - eexists; repeat split; reflexivity.
  - reflexivity.
  - reflexivity.
  - reflexivity.
  - reflexivity.
  - split; reflexivity.
Defined.

Lemma strategy_connect_fails env t uri token w :
  connect_fails env ->
  outcome (strategy_connect env t uri token w) = Resolved None.
Proof.
  unfold connect_fails, strategy_connect, playWithConnectAPI.
  destruct (connectFetch env) as [e|r]; intros H; [reflexivity|].
  run. rewrite H. cbn [negb]. destruct (body r); reflexivity.
Qed.

Lemma strategy_preview_without_url env t v w :
  truthy (preview_url t) = false ->
  strategy_preview env t v w = mkRun (Resolved None) w [].
Proof. unfold strategy_preview. intros ->. reflexivity. Qed.

(** C2.  With a valid credential, a track without preview URL, a
    gesture-restrictive platform (the SDK strategy is skipped) and a failing
    remote-device dispatch, [playTrack] rejects with the one terminal error
    that tells the user to open Spotify on a device; it does not resolve. *)
Theorem playTrack_terminal_error :
  forall env trackId token volume w t,
    token <> "" ->
    metadata_resolves env t ->
    truthy (preview_url t) = false ->
    isIOSDevice env = true ->
    connect_fails env ->
    outcome (playTrack env trackId (Some token) volume w) =
      Rejected (Error
        "Could not play track. Please open Spotify on a device and try again.").
Proof.
  intros env trackId token volume w t Htok Hmeta Hurl Hios Hconn.
  destruct (truthy_Some_nonempty token Htok) as [Ht Ho].
  unfold playTrack. rewrite Ht, Ho. cbn [negb].
  pose proof (getTrack_resolves env trackId token t w Hmeta) as Hg.
  rewrite outcome_bind, outcome_try_catch, final_try_catch, Hg. cbn [outcome final].
  rewrite outcome_bind, strategy_sdk_skipped_on_iOS by assumption. cbn [outcome final].
  rewrite outcome_bind, strategy_preview_without_url by assumption. cbn [outcome final].
  rewrite outcome_bind, strategy_connect_fails by assumption.
  reflexivity.
Qed.

Lemma playTrack_terminal_error_witness :
  outcome (playTrack (Sample.iphone_blocked Sample.track_without_preview)
             "4uLU6hMCjMI75M1A2tKUQC" (Some "token") (Num 80) initial_world) =
    Rejected (Error
      "Could not play track. Please open Spotify on a device and try again.").
Proof.
  apply (playTrack_terminal_error
           (Sample.iphone_blocked Sample.track_without_preview)
           "4uLU6hMCjMI75M1A2tKUQC" "token" (Num 80) initial_world
           Sample.track_without_preview).
  - discriminate.
  - eexists; repeat split; reflexivity.
  - reflexivity.
  - reflexivity.
  - reflexivity.
Defined.

(** C3.  Without a credential ([null]) [playTrack] rejects with the
    log-in message before anything else happens: the run issues no effect
    at all, so no request to the metadata endpoint or to any other and no
    step of any strategy, and it leaves the module state as it was. *)
Theorem playTrack_requires_credential :
  forall env trackId volume w,
    outcome (playTrack env trackId None volume w)
      = Rejected (Error "Please log in with Spotify to play tracks.")
    /\ effects (playTrack env trackId None volume w) = []
    /\ final (playTrack env trackId None volume w) = w
    /\ (forall method url authorization uris,
          ~ In (Fetch method url authorization uris)
               (effects (playTrack env trackId None volume w))).
Proof.
  intros env trackId volume w.
  split; [reflexivity|]. split; [reflexivity|]. split; [reflexivity|].
  intros method url authorization uris H. exact H.
Qed.

(** ** Policies *)

Section Respects.

Variable P : Policy.

Lemma respects_ret {A} (a : A) : respects P (ret a).
Proof. intro w; split; [apply rel_refl | constructor]. Qed.

Lemma respects_throw {A} (e : Thrown) : respects P (@throw A e).
Proof. intro w; split; [apply rel_refl | constructor]. Qed.

Lemma respects_never {A} : respects P (@never A).
Proof. intro w; split; [apply rel_refl | constructor]. Qed.

Lemma respects_get : respects P get.
Proof. intro w; split; [apply rel_refl | constructor]. Qed.

Lemma respects_emit (e : Effect) : allowed P e -> respects P (emit e).
Proof. intros H w; split; [apply rel_refl | repeat constructor; exact H]. Qed.

Lemma respects_modify (f : World -> World) :
  (forall w, rel P w (f w)) -> respects P (modify f).
Proof. intros H w; split; [apply H | constructor]. Qed.

Lemma respects_bind {A B} (m : M A) (f : A -> M B) :
  respects P m -> (forall a, respects P (f a)) -> respects P (bind m f).
Proof.
  intros Hm Hf w. destruct (Hm w) as [Hr He].
  rewrite final_bind, effects_bind.
  destruct (outcome (m w)) as [a| |]; try (split; assumption).
  destruct (Hf a (final (m w))) as [Hr' He'].
  split; [eapply rel_trans; eassumption | apply Forall_app; split; assumption].
Qed.

Lemma respects_try_catch {A} (m : M A) (h : Thrown -> M A) :
  respects P m -> (forall e, respects P (h e)) -> respects P (try_catch m h).
Proof.
  intros Hm Hh w. destruct (Hm w) as [Hr He].
  rewrite final_try_catch, effects_try_catch.
  destruct (outcome (m w)) as [|e|]; try (split; assumption).
  destruct (Hh e (final (m w))) as [Hr' He'].
  split; [eapply rel_trans; eassumption | apply Forall_app; split; assumption].
Qed.

End Respects.

Create HintDb player.

#[local] Hint Unfold
  getTrack fetch json when void update_element element_set element_set_volume
  element_play element_pause element_load ensureAudioElement createPlayer
  settle_on_player_event initializeSpotifyPlayer playWithSDK stopPreview
  waitForPlaybackStart playPreview preparePreview unlockAudio
  activateSDKElement stopAutoplayKeepAlive pausePreview resumePreview
  setPreviewVolume getPreviewProgress isPreviewPlaying onPreviewProgress
  unsubscribe playWithConnectAPI strategy_sdk strategy_preview strategy_connect
  playTrack loadTrack pause resume stopPlayback disconnectPlayer : player.

(** Decompose a computation along its structure; [side] settles what the
    policy asks of a single effect or a single assignment. *)
Ltac respects_with side :=
  autounfold with player;
  repeat first
    [ apply respects_ret
    | apply respects_throw
    | apply respects_never
    | apply respects_get
    | apply respects_bind; [ | intro ]
    | apply respects_try_catch; [ | intro ]
    | apply respects_emit; solve [ side ]
    | apply respects_modify; intro; solve [ side ]
    | match goal with
      | |- respects _ (match ?x with _ => _ end) => destruct x
      end ].

Ltac quiet_side :=
  cbn; first [ exact I
             | split; intro; first [ assumption | reflexivity | discriminate ] ].

Lemma perform_quiet env c :
  c <> call_startAutoplayKeepAlive -> respects quiet (perform env c).
Proof.
  intros Hc. destruct c; try congruence; cbn [perform];
    respects_with quiet_side.
Qed.

(** ** The gesture flags *)

(** What a call of [startAutoplayKeepAlive] leaves: nothing changes when
    keep-alive is on already; otherwise both flags are raised exactly when
    [play()] resolves. *)
Lemma startAutoplayKeepAlive_flags env w :
  let w' := final (startAutoplayKeepAlive env w) in
  if keepAliveActive w then w' = w
  else match playOutcome env with
       | None => keepAliveActive w' = true /\ audioUnlocked w' = true
       | Some _ => keepAliveActive w' = false /\ audioUnlocked w' = audioUnlocked w
       end.
Proof.
  unfold startAutoplayKeepAlive, ensureAudioElement, element_set_volume, element_play.
  destruct w as [[el|] u [|] sp d ws cb nh]; cbn [keepAliveActive];
    try reflexivity; destruct (playOutcome env); split; reflexivity.
Qed.

Lemma perform_keeps_unlocked env c w :
  audioUnlocked w = true -> audioUnlocked (final (perform env c w)) = true.
Proof.
  intros Hu.
  assert (Hne : {c = call_startAutoplayKeepAlive} + {c <> call_startAutoplayKeepAlive})
    by (destruct c; first [left; reflexivity | right; discriminate]).
  destruct Hne as [->|Hne].
  - cbn [perform]. pose proof (startAutoplayKeepAlive_flags env w) as H. cbn zeta in H.
    destruct (keepAliveActive w).
    + rewrite H. exact Hu.
    + destruct (playOutcome env); destruct H as [_ H]; [rewrite H; exact Hu | exact H].
  - apply (perform_quiet env c Hne w). exact Hu.
Qed.

Lemma perform_keeps_invariant env c w :
  keepAlive_implies_unlocked w ->
  keepAlive_implies_unlocked (final (perform env c w)).
Proof.
  unfold keepAlive_implies_unlocked. intros Hinv.
  assert (Hne : {c = call_startAutoplayKeepAlive} + {c <> call_startAutoplayKeepAlive})
    by (destruct c; first [left; reflexivity | right; discriminate]).
  destruct Hne as [->|Hne].
  - cbn [perform]. pose proof (startAutoplayKeepAlive_flags env w) as H. cbn zeta in H.
    destruct (keepAliveActive w).
    + rewrite H. intros _. apply Hinv. reflexivity.
    + destruct (playOutcome env); destruct H as [Hk Hu'].
      * rewrite Hk. discriminate.
      * intros _. exact Hu'.
  - destruct (perform_quiet env c Hne w) as [[Hu Hk] _]. cbn in Hu, Hk.
    intros H. apply Hu, Hinv, Hk, H.
Qed.

Lemma lifetime_keeps_unlocked calls w :
  audioUnlocked w = true -> audioUnlocked (fst (lifetime calls w)) = true.
Proof.
  revert w. induction calls as [|[env c] rest IH]; intros w Hu; cbn; [exact Hu|].
  specialize (IH (final (perform env c w)) (perform_keeps_unlocked env c w Hu)).
  destruct (lifetime rest (final (perform env c w))) as [w1 es1]. exact IH.
Qed.

Lemma lifetime_keeps_invariant calls w :
  keepAlive_implies_unlocked w -> keepAlive_implies_unlocked (fst (lifetime calls w)).
Proof.
  revert w. induction calls as [|[env c] rest IH]; intros w Hinv; cbn; [exact Hinv|].
  specialize (IH (final (perform env c w)) (perform_keeps_invariant env c w Hinv)).
  destruct (lifetime rest (final (perform env c w))) as [w1 es1]. exact IH.
Qed.

Lemma reachable_keepAlive_implies_unlocked w :
  reachable w -> keepAlive_implies_unlocked w.
Proof.
  intros [calls <-]. apply lifetime_keeps_invariant. intros H; discriminate H.
Qed.

(** C7.  [audioUnlocked] is monotonic over a page lifetime: from a world
    where it is true, no sequence of calls on the player module, with
    whatever answers from the surroundings, leads to a world where it is
    false.  And in every world the page can reach, after a call of
    [startAutoplayKeepAlive] whose [play()] resolves both [keepAliveActive]
    and [audioUnlocked] are true. *)
Theorem unlocked_monotonic_and_raised_by_keepAlive :
  (forall calls w,
      audioUnlocked w = true ->
      audioUnlocked (fst (lifetime calls w)) = true)
  /\ (forall env w,
        reachable w ->
        playOutcome env = None ->
        keepAliveActive (final (startAutoplayKeepAlive env w)) = true
        /\ audioUnlocked (final (startAutoplayKeepAlive env w)) = true).
Proof.
  split.
  - exact lifetime_keeps_unlocked.
  - intros env w Hreach Hplay.
    pose proof (reachable_keepAlive_implies_unlocked w Hreach) as Hinv.
    pose proof (startAutoplayKeepAlive_flags env w) as H. cbn zeta in H.
    rewrite Hplay in H. unfold keepAlive_implies_unlocked in Hinv.
    destruct (keepAliveActive w) eqn:Hk.
    + rewrite H. split; [exact Hk | apply Hinv; reflexivity].
    + exact H.
Qed.

Lemma unlocked_monotonic_and_raised_by_keepAlive_witness :
  audioUnlocked
    (fst (lifetime
            [ (Sample.iphone_blocked Sample.track_with_preview, call_stopAutoplayKeepAlive);
              (Sample.iphone_blocked Sample.track_with_preview,
               call_playTrack "4uLU6hMCjMI75M1A2tKUQC" (Some "token") (Num 80));
              (Sample.iphone_blocked Sample.track_with_preview, call_disconnectPlayer) ]
            (final (unlockAudio (Sample.iphone_blocked Sample.track_with_preview)
                      initial_world)))) = true
  /\ keepAliveActive
       (final (startAutoplayKeepAlive
                 (Sample.iphone_blocked Sample.track_with_preview) initial_world)) = true
  /\ audioUnlocked
       (final (startAutoplayKeepAlive
                 (Sample.iphone_blocked Sample.track_with_preview) initial_world)) = true.
Proof.
  split.
  - apply (proj1 unlocked_monotonic_and_raised_by_keepAlive). reflexivity.
  - apply (proj2 unlocked_monotonic_and_raised_by_keepAlive).
    + exists []. reflexivity.
    + reflexivity.
Defined.

(** ** The SDK strategy on a gesture-restrictive platform *)

Ltac no_sdk_side := cbn; first [ reflexivity | repeat split; reflexivity ].

Lemma strategy_preview_no_sdk env t v : respects no_sdk (strategy_preview env t v).
Proof. respects_with no_sdk_side. Qed.

Lemma strategy_connect_no_sdk env t uri token :
  respects no_sdk (strategy_connect env t uri token).
Proof. respects_with no_sdk_side. Qed.

Lemma playTrack_no_sdk_on_iOS env trackId accessToken v :
  isIOSDevice env = true ->
  respects no_sdk (playTrack env trackId accessToken v).
Proof.
  intros Hios. unfold playTrack.
  destruct (negb (truthy accessToken)); [apply respects_throw|].
  apply respects_bind; [respects_with no_sdk_side | intros t].
  apply respects_bind.
  { intros w. rewrite strategy_sdk_skipped_on_iOS by exact Hios.
    split; [apply (rel_refl no_sdk) | constructor]. }
  intros [result|]; [apply respects_ret|].
  apply respects_bind; [apply strategy_preview_no_sdk|].
  intros [result|]; [apply respects_ret|].
  apply respects_bind; [apply strategy_connect_no_sdk|].
  intros [result|]; [apply respects_ret | apply respects_throw].
Qed.

(** C5.  On a gesture-restrictive platform ([isIOSDevice] answers true) a
    call of [playTrack] never attempts the SDK strategy: no effect of the
    run is an SDK effect (script load, SDK call, play command on the in-page
    device) and the SDK session is left as it was; and once the credential
    is there and the metadata has arrived, the effects that follow the
    metadata request are those of the preview strategy. *)
Theorem playTrack_skips_SDK_on_iOS :
  forall env trackId accessToken volume w,
    isIOSDevice env = true ->
    Forall (fun e => is_sdk_effect e = false)
           (effects (playTrack env trackId accessToken volume w))
    /\ same_sdk_session w (final (playTrack env trackId accessToken volume w))
    /\ (forall t,
          truthy accessToken = true ->
          metadata_resolves env t ->
          exists rest,
            effects (playTrack env trackId accessToken volume w) =
              (Fetch "GET" (BASE_URL ++ "/tracks/" ++ trackId)
                     ("Bearer " ++ or_else accessToken "") []
                 :: effects (strategy_preview env t volume w) ++ rest)%list).
Proof.
  intros env trackId accessToken volume w Hios.
  destruct (playTrack_no_sdk_on_iOS env trackId accessToken volume Hios w) as [Hrel Heff].
  split; [exact Heff | split; [exact Hrel|]].
  intros t Htok Hmeta.
  unfold playTrack. rewrite Htok. cbn [negb].
  pose proof (getTrack_resolves env trackId (or_else accessToken "") t w Hmeta) as Hg.
  rewrite effects_bind, outcome_try_catch, effects_try_catch, final_try_catch, Hg.
  cbn [outcome final effects].
  rewrite effects_bind, strategy_sdk_skipped_on_iOS by exact Hios.
  cbn [outcome final effects app].
  rewrite effects_bind.
  destruct (outcome (strategy_preview env t volume w)) as [[result|]| |].
  - exists []. reflexivity.
  - eexists. reflexivity.
  - exists []. rewrite app_nil_r. reflexivity.
  - exists []. rewrite app_nil_r. reflexivity.
Qed.

Lemma playTrack_skips_SDK_on_iOS_witness :
  Forall (fun e => is_sdk_effect e = false)
         (effects (playTrack (Sample.iphone_blocked Sample.track_with_preview)
                     "4uLU6hMCjMI75M1A2tKUQC" (Some "token") (Num 80) initial_world))
  /\ same_sdk_session initial_world
       (final (playTrack (Sample.iphone_blocked Sample.track_with_preview)
                 "4uLU6hMCjMI75M1A2tKUQC" (Some "token") (Num 80) initial_world))
  /\ exists rest,
       effects (playTrack (Sample.iphone_blocked Sample.track_with_preview)
                  "4uLU6hMCjMI75M1A2tKUQC" (Some "token") (Num 80) initial_world) =
         (Fetch "GET" (BASE_URL ++ "/tracks/" ++ "4uLU6hMCjMI75M1A2tKUQC")
                ("Bearer " ++ "token") []
            :: effects (strategy_preview
                          (Sample.iphone_blocked Sample.track_with_preview)
                          Sample.track_with_preview (Num 80) initial_world)
               ++ rest)%list.
Proof.
  pose proof (playTrack_skips_SDK_on_iOS
                (Sample.iphone_blocked Sample.track_with_preview)
                "4uLU6hMCjMI75M1A2tKUQC" (Some "token") (Num 80) initial_world
                eq_refl) as H.
  split; [exact (proj1 H) | split; [exact (proj1 (proj2 H))|]].
  apply (proj2 (proj2 H) Sample.track_with_preview).
  - reflexivity.
  - eexists; repeat split; reflexivity.
Defined.

(** ** The keep-alive transition of [playPreview] *)

(** With keep-alive on, [playPreview] is its body without the stop. *)
Lemma playPreview_under_keepAlive env url v w :
  keepAliveActive w = true ->
  playPreview env url v w =
    (ensureAudioElement ;;
     element_set (SetLoop false) (with_loop false) ;;
     element_set (SetMuted false) (with_muted false) ;;
     element_set (SetSrc url) (with_src url) ;;
     element_set (SetCurrentTime (Num 0)) (with_currentTime (Num 0)) ;;
     element_set_volume (div v (Num 100)) ;;
     try_catch
       (element_load ;;
        element_play env ;;
        started <- waitForPlaybackStart env ;;
        (if negb started then throw AutoplayBlockedError else ret tt) ;;
        modify (set_keepAliveActive false))
       (fun error =>
          if isAutoplayBlockedError error then throw AutoplayBlockedError
          else
            emit (ConsoleError ("Failed to play preview: " ++ message error)) ;;
            throw (Error "Failed to play audio preview"))) w.
Proof.
  intros H. unfold playPreview. rewrite bind_get, H. cbn [negb when].
  rewrite bind_ret. reflexivity.
Qed.

Ltac no_pause_side := cbn; first [ exact I | discriminate ].

(** C4.  While keep-alive is active, [playPreview] does not perform the
    stop/reset step: its run never calls [pause()] on the shared element,
    and nothing it does before assigning the new source pauses the element
    or resets its position; the source is always assigned. *)
Theorem playPreview_keepAlive_skips_stop :
  forall env url v w,
    keepAliveActive w = true ->
    Forall (fun e => e <> AudioCall PauseOp) (effects (playPreview env url v w))
    /\ exists before after,
         effects (playPreview env url v w)
           = (before ++ AudioCall (SetSrc url) :: after)%list
         /\ Forall (fun e => forall op, e = AudioCall op ->
                      op <> PauseOp /\ forall t, op <> SetCurrentTime t) before.
Proof.
  intros env url v w H.
  rewrite (playPreview_under_keepAlive env url v w H).
  split.
  - match goal with
    | |- Forall _ (effects (?m w)) =>
        assert (Hm : respects no_pause m) by respects_with no_pause_side;
        exact (proj2 (Hm w))
    end.
  - exists (effects (ensureAudioElement w)
            ++ [AudioCall (SetLoop false); AudioCall (SetMuted false)])%list.
    eexists. split.
    + rewrite effects_bind.
      assert (He : outcome (ensureAudioElement w) = Resolved tt)
        by (unfold ensureAudioElement; rewrite bind_get;
            destruct (audioElement w); reflexivity).
      rewrite He. unfold element_set at 1 2 3.
      rewrite !bind_assoc, effects_bind_emit.
      unfold update_element at 1. rewrite effects_bind_modify.
      rewrite !bind_assoc, effects_bind_emit.
      unfold update_element at 1. rewrite effects_bind_modify.
      rewrite !bind_assoc, effects_bind_emit.
      rewrite <- app_assoc. cbn [app]. reflexivity.
    + apply Forall_app. split.
      * unfold ensureAudioElement. rewrite bind_get.
        destruct (audioElement w); cbn [effects ret];
          [apply Forall_nil|].
        cbv [bind emit modify element_set update_element effects app].
        apply Forall_cons; [intros op Hop; discriminate Hop|].
        apply Forall_cons; [|apply Forall_nil].
        intros op Hop; inversion Hop; subst.
        split; [discriminate | intros t; discriminate].
      * apply Forall_cons; [|apply Forall_cons; [|apply Forall_nil]];
          intros op Hop; inversion Hop; subst;
          (split; [discriminate | intros t; discriminate]).
Qed.

(** Without keep-alive the same call starts with the stop/reset step. *)
Lemma playPreview_without_keepAlive_stops_first env url v w el :
  keepAliveActive w = false ->
  audioElement w = Some el ->
  exists rest,
    effects (playPreview env url v w) =
      AudioCall PauseOp :: AudioCall (SetCurrentTime (Num 0)) :: rest.
Proof.
  intros Hk Hel. unfold playPreview. rewrite bind_get, Hk. cbn [negb when].
  unfold stopPreview at 1. rewrite !bind_assoc, bind_get, Hel.
  unfold element_pause, element_set at 1 2.
  rewrite !bind_assoc, effects_bind_emit.
  unfold update_element at 1. rewrite effects_bind_modify.
  rewrite !bind_assoc, effects_bind_emit.
  eexists. reflexivity.
Qed.

Lemma playPreview_keepAlive_skips_stop_witness :
  Forall (fun e => e <> AudioCall PauseOp)
    (effects (playPreview (Sample.iphone_blocked Sample.track_with_preview)
                "https://p.scdn.co/mp3-preview/clip" (Num 80)
                (final (startAutoplayKeepAlive
                          (Sample.iphone_blocked Sample.track_with_preview)
                          initial_world)))).
Proof.
  apply (playPreview_keepAlive_skips_stop
           (Sample.iphone_blocked Sample.track_with_preview)
           "https://p.scdn.co/mp3-preview/clip" (Num 80)
           (final (startAutoplayKeepAlive
                     (Sample.iphone_blocked Sample.track_with_preview)
                     initial_world))).
  reflexivity.
Defined.

(** ** Loading the vendor SDK *)

(** One call: a script is appended exactly when [window.Spotify] is not
    defined yet, and the SDK is defined afterwards exactly when it was
    before or its script ran during the call. *)
Lemma initializeSpotifyPlayer_script env token w :
  let r := perform env (call_initializeSpotifyPlayer token) w in
  scripts_appended (effects r) = (if window_Spotify w then 0 else 1)
  /\ window_Spotify (final r) = window_Spotify w || sdkScriptLoads env.
Proof.
  cbn [perform]. unfold void, initializeSpotifyPlayer, settle_on_player_event.
  rewrite bind_assoc, bind_get.
  destruct w as [el u k sp d [|] cb nh]; cbn [window_Spotify orb].
  - destruct (playerEvent env); split; reflexivity.
  - destruct (sdkScriptLoads env); [destruct (playerEvent env)|]; split; reflexivity.
Qed.

Lemma lifetime_cons env c rest w :
  lifetime ((env, c) :: rest) w =
    (fst (lifetime rest (final (perform env c w))),
     (effects (perform env c w) ++ snd (lifetime rest (final (perform env c w))))%list).
Proof. cbn. destruct (lifetime rest (final (perform env c w))); reflexivity. Qed.

Lemma scripts_appended_app es1 es2 :
  scripts_appended (es1 ++ es2) = scripts_appended es1 + scripts_appended es2.
Proof. unfold scripts_appended. rewrite filter_app, length_app. reflexivity. Qed.

Lemma page_cons env t rest w :
  page env (t :: rest) w =
    (fst (page env rest (final (turn env t w))),
     (effects (turn env t w) ++ snd (page env rest (final (turn env t w))))%list).
Proof. cbn [page]. destruct (page env rest (final (turn env t w))); reflexivity. Qed.

(** One turn: a script is appended exactly by a call made while
    [window.Spotify] is undefined; the SDK is defined afterwards exactly
    when it was before or the turn is a script's run. *)
Lemma turn_script env t w :
  scripts_appended (effects (turn env t w)) =
    match t with
    | CallInitialize _ => if window_Spotify w then 0 else 1
    | _ => 0
    end
  /\ window_Spotify (final (turn env t w)) =
       match t with
       | ScriptRuns => true
       | _ => window_Spotify w
       end.
Proof.
  destruct w as [el u k sp d [|] [cb|] nh]; destruct t as [token| |[dev|m|m|m|]];
    split; reflexivity.
Qed.

Lemma calls_before_load_loaded turns : calls_before_load true turns = 0.
Proof. induction turns as [|[token| |ev] rest IH]; cbn; auto. Qed.

Lemma page_scripts env turns :
  forall w,
    scripts_appended (snd (page env turns w))
      = calls_before_load (window_Spotify w) turns
    /\ (window_Spotify w = true -> window_Spotify (fst (page env turns w)) = true).
Proof.
  induction turns as [|t rest IH]; intros w; [split; auto|].
  rewrite page_cons. cbn [fst snd]. rewrite scripts_appended_app.
  destruct (turn_script env t w) as [Hs Hf]. rewrite Hs.
  destruct (IH (final (turn env t w))) as [IH1 IH2]. rewrite IH1, Hf.
  split.
  - destruct t; reflexivity.
  - intros Hw. apply IH2. rewrite Hf. destruct t; auto.
Qed.

(** The run-to-completion reading of [initializeSpotifyPlayer] is one
    schedule among the others: the call, then (when the SDK was not defined
    and its script gets to run) the script, then what the player reports. *)
Lemma initializeSpotifyPlayer_as_turns env token w :
  let r := initializeSpotifyPlayer env token w in
  (window_Spotify w = true ->
   (final r, effects r)
     = page env [CallInitialize token; PlayerReports (playerEvent env)] w)
  /\ (window_Spotify w = false -> sdkScriptLoads env = true ->
      (final r, effects r)
        = page env [CallInitialize token; ScriptRuns;
                    PlayerReports (playerEvent env)] w).
Proof.
  destruct w as [el u k sp d ws cb nh]. cbn [window_Spotify]. split.
  - intros ->. unfold initializeSpotifyPlayer, settle_on_player_event.
    destruct (playerEvent env); reflexivity.
  - intros -> Hl. unfold initializeSpotifyPlayer, settle_on_player_event.
    rewrite bind_get. cbn [window_Spotify]. rewrite Hl.
    destruct (playerEvent env); reflexivity.
Qed.

(** C6, as the code has it.  Over any sequence of calls of
    [initializeSpotifyPlayer] in one page lifetime, interleaved in any
    order with the turns in which an appended script runs and the player
    reports, a call appends the SDK script element exactly when
    [window.Spotify] is undefined as the call is made: the number of script
    elements appended is the number of calls made before a script has run,
    and once the SDK is defined it stays defined and no further script is
    appended. *)
Theorem initialize_appends_script_while_not_loaded :
  forall env turns w,
    scripts_appended (snd (page env turns w))
      = calls_before_load (window_Spotify w) turns
    /\ (window_Spotify w = true ->
        scripts_appended (snd (page env turns w)) = 0
        /\ window_Spotify (fst (page env turns w)) = true).
Proof.
  intros env turns w. destruct (page_scripts env turns w) as [Hn Hw].
  split; [exact Hn|]. intros H. split; [|exact (Hw H)].
  rewrite Hn, H. apply calls_before_load_loaded.
Qed.

Lemma initialize_appends_script_while_not_loaded_witness :
  scripts_appended
    (snd (page (Sample.desktop_premium Sample.track_with_preview)
            [CallInitialize "token"; CallInitialize "token"; ScriptRuns;
             CallInitialize "token"]
            (set_window_Spotify true initial_world))) = 0
  /\ window_Spotify
       (fst (page (Sample.desktop_premium Sample.track_with_preview)
               [CallInitialize "token"; CallInitialize "token"; ScriptRuns;
                CallInitialize "token"]
               (set_window_Spotify true initial_world))) = true.
Proof.
  apply (proj2 (initialize_appends_script_while_not_loaded
                  (Sample.desktop_premium Sample.track_with_preview)
                  [CallInitialize "token"; CallInitialize "token"; ScriptRuns;
                   CallInitialize "token"]
                  (set_window_Spotify true initial_world))).
  reflexivity.
Defined.

(** C6, as stated, fails: on a fresh page, two calls made before the script
    of the first has run append the script element twice, although the SDK
    then loads; a third call, made after, appends nothing. *)
Lemma initialize_twice_appends_script_twice :
  scripts_appended
    (snd (page (Sample.desktop_premium Sample.track_with_preview)
            [CallInitialize "token"; CallInitialize "token"; ScriptRuns;
             PlayerReports (PReady "device-1"); CallInitialize "token"]
            initial_world)) = 2
  /\ window_Spotify
       (fst (page (Sample.desktop_premium Sample.track_with_preview)
               [CallInitialize "token"; CallInitialize "token"; ScriptRuns;
                PlayerReports (PReady "device-1"); CallInitialize "token"]
               initial_world)) = true
  /\ ~ scripts_appended
         (snd (page (Sample.desktop_premium Sample.track_with_preview)
                 [CallInitialize "token"; CallInitialize "token"; ScriptRuns;
                  PlayerReports (PReady "device-1"); CallInitialize "token"]
                 initial_world)) <= 1.
Proof. split; [reflexivity | split; [reflexivity | vm_compute; lia]]. Qed.

(** The same without any overlap of calls: a call made after one whose
    script could not be fetched appends the script element again. *)
Example initialize_again_after_failed_load :
  scripts_appended
    (snd (lifetime
            (initialize_calls
               [ (Sample.desktop_sdk_unreachable Sample.track_with_preview, "token");
                 (Sample.desktop_sdk_unreachable Sample.track_with_preview, "token") ])
            initial_world)) = 2.
Proof. reflexivity. Qed.

(** ** Volume *)

(** What [setVolume] stores: a value of [0, 100] for every finite input,
    the nearest boundary for an input outside, the input itself inside. *)
Lemma setVolume_clamps (q : Q) (s : Store.PlayerState) :
  let v := Store.volume (Store.setVolume (Num q) s) in
  between 0 100 v = true
  /\ ((q < 0)%Q -> v = Num 0)
  /\ ((100 < q)%Q -> v = Num 100)
  /\ ((0 <= q <= 100)%Q -> num_eq v (Num q)).
Proof.
  cbn. unfold Qmax, Qmin, GenericMinMax.gmax, GenericMinMax.gmin.
  destruct (Qcompare_spec 100 q) as [H1|H1|H1];
    [ | | destruct (Qcompare_spec 0 q) as [H0|H0|H0] ];
    cbn; rewrite ?andb_true_iff, ?Qle_bool_iff;
    repeat match goal with |- _ /\ _ => split end;
    intros; first [ reflexivity | lra | exfalso; lra ].
Qed.

(** The engine is handed the input of [changeVolume], not the clamped
    value: scaled by 1/100, whatever the input. *)
Lemma changeVolume_hands_input_to_engine n s w el :
  audioElement w = Some el ->
  effects (Hook.page (Hook.changeVolume n s w))
    = [AudioCall (SetVolume (div n (Num 100)))].
Proof.
  intros Hel. unfold Hook.changeVolume, setPreviewVolume, element_set_volume.
  cbn [Hook.page]. rewrite bind_get, Hel, effects_bind_emit.
  destruct (div n (Num 100)); [reflexivity|].
  destruct (between 0 1 (Num q)); reflexivity.
Qed.

(** C8, at an input above the range.  [changeVolume(150)] with a clip
    loaded at volume 80: the store receives the clamped value 100, the
    audio engine is handed 150/100, the element refuses it with an
    IndexSizeError and keeps the volume it had. *)
Theorem changeVolume_150_engine_not_clamped :
  let w := final (preparePreview "https://p.scdn.co/mp3-preview/clip" (Num 80)
                    initial_world) in
  let r := Hook.changeVolume (Num 150) Store.initial w in
  Store.volume (Hook.store_after r) = Num 100
  /\ effects (Hook.page r) = [AudioCall (SetVolume (div (Num 150) (Num 100)))]
  /\ num_eq (div (Num 150) (Num 100)) (Num (3 # 2))
  /\ outcome (Hook.page r) = Rejected IndexSizeError
  /\ option_map volume (audioElement (final (Hook.page r)))
       = option_map volume (audioElement w).
Proof. cbv zeta. repeat (split; [reflexivity|]). reflexivity. Qed.

(** ** Reads before the element exists *)

(** C9.  As long as the shared audio element has not been created,
    [getPreviewProgress] answers [{current: 0, duration: 0}],
    [isPreviewPlaying] answers false and [onPreviewProgress] returns the
    closure that does nothing; none of them creates the element, changes the
    module state or issues an effect, and calling the returned closure, at
    any later time, does nothing either. *)
Theorem reads_before_element_exists :
  forall w callback,
    audioElement w = None ->
    getPreviewProgress w
      = mkRun (Resolved {| current := Num 0; progress_duration := Num 0 |}) w []
    /\ isPreviewPlaying w = mkRun (Resolved false) w []
    /\ onPreviewProgress callback w = mkRun (Resolved unsubscribe_nothing) w []
    /\ forall w', unsubscribe unsubscribe_nothing w' = mkRun (Resolved tt) w' [].
Proof.
  intros w callback H.
  unfold getPreviewProgress, isPreviewPlaying, onPreviewProgress.
  rewrite !bind_get, H. repeat split.
Qed.

Lemma reads_before_element_exists_witness :
  getPreviewProgress initial_world
    = mkRun (Resolved {| current := Num 0; progress_duration := Num 0 |}) initial_world []
  /\ isPreviewPlaying initial_world = mkRun (Resolved false) initial_world []
  /\ onPreviewProgress 7 initial_world
     = mkRun (Resolved unsubscribe_nothing) initial_world []
  /\ forall w', unsubscribe unsubscribe_nothing w' = mkRun (Resolved tt) w' [].
Proof.
  apply (reads_before_element_exists initial_world 7). reflexivity.
Defined.

(** ** The store on stop *)

Lemma stopPlayback_resolves w : outcome (stopPlayback w) = Resolved tt.
Proof.
  unfold stopPlayback, stopPreview. rewrite bind_assoc, bind_get.
  destruct w as [[el|] u k [sp|] d ws cb nh]; reflexivity.
Qed.

(** C10.  The UI-facing [stop] applies the store's [reset], and [reset]
    puts [currentTrack], [isPlaying], [playbackType], [progress], [error]
    and [isLoading] back to their initial values while the volume stays the
    one the store had. *)
Theorem reset_keeps_volume :
  forall (s : Store.PlayerState) (w : World),
    Hook.store_after (Hook.stop s w) = Store.reset s
    /\ Store.currentTrack (Store.reset s) = Store.currentTrack Store.initial
    /\ Store.isPlaying (Store.reset s) = Store.isPlaying Store.initial
    /\ Store.playbackType (Store.reset s) = Store.playbackType Store.initial
    /\ Store.progress (Store.reset s) = Store.progress Store.initial
    /\ Store.error (Store.reset s) = Store.error Store.initial
    /\ Store.isLoading (Store.reset s) = Store.isLoading Store.initial
    /\ Store.volume (Store.reset s) = Store.volume s.
Proof.
  intros s w. split.
  - unfold Hook.stop. rewrite stopPlayback_resolves. reflexivity.
  - repeat split.
Qed.

(* ===================================================================== *)
(** * Further properties of the player module *)
(* ===================================================================== *)

(** ** Outcomes of the building blocks *)

Lemma outcome_then_ret {A B} (m : M A) (b : B) w :
  outcome (bind m (fun _ => ret b) w) =
    match outcome (m w) with
    | Resolved _ => Resolved b
    | Rejected e => Rejected e
    | Pending => Pending
    end.
Proof. rewrite outcome_bind. destruct (outcome (m w)); reflexivity. Qed.

(** A [try]/[catch] whose handler always completes never rejects. *)
Lemma try_catch_never_rejects {A} (m : M A) (h : Thrown -> M A) w :
  (forall e w', exists a, outcome (h e w') = Resolved a) ->
  forall e, outcome (try_catch m h w) <> Rejected e.
Proof.
  intros Hh e. rewrite outcome_try_catch.
  destruct (outcome (m w)) as [a|e'|]; try discriminate.
  destruct (Hh e' (final (m w))) as [a ->]. discriminate.
Qed.

(** [getTrack] settles: it resolves exactly when the answer is a response
    with a status of 200..299 whose body parses. *)
Lemma getTrack_outcome env trackId token w :
  (exists t, outcome (getTrack env trackId token w) = Resolved t
             /\ metadata_resolves env t)
  \/ (exists e, outcome (getTrack env trackId token w) = Rejected e
                /\ forall t, ~ metadata_resolves env t).
Proof.
  unfold getTrack, fetch, json, metadata_resolves.
  destruct (trackFetch env) as [e|r] eqn:Hf.
  - right. exists e. split; [reflexivity|].
    intros t (r & Hr & _). discriminate Hr.
  - run. destruct (ok r) eqn:Hok; cbn [negb].
    + destruct (body r) as [t|] eqn:Hb.
      * left. exists t. split; [reflexivity|]. exists r. auto.
      * right. eexists. split; [reflexivity|].
        intros t (r' & Hr & _ & Hb'). injection Hr as <-. congruence.
    + right.
      destruct (Nat.eqb (status r) 404); [|destruct (Nat.eqb (status r) 401)];
        (eexists; split; [reflexivity|]);
        intros t (r' & Hr & Hok' & _); injection Hr as <-; congruence.
Qed.

(** ** Metadata failures *)

(** A rejected [getTrack] has issued its request and nothing else. *)
Lemma getTrack_rejected env trackId token w e :
  outcome (getTrack env trackId token w) = Rejected e ->
  getTrack env trackId token w =
    mkRun (Rejected e) w
      [Fetch "GET" (BASE_URL ++ "/tracks/" ++ trackId) ("Bearer " ++ token) []].
Proof.
  unfold getTrack, fetch, json.
  destruct (trackFetch env) as [e0|r]; run.
  - cbn. intros H. injection H as <-. reflexivity.
  - destruct (ok r); cbn [negb].
    + destruct (body r); cbn; intros H; [discriminate H|].
      injection H as <-. reflexivity.
    + destruct (Nat.eqb (status r) 404); [|destruct (Nat.eqb (status r) 401)];
        cbn; intros H; injection H as <-; reflexivity.
Qed.

(** X1.  When the metadata cannot be obtained, for whatever reason (the
    request fails, the status is 404, 401 or any other outside 200..299, the
    body does not parse), [playTrack] rejects with 'Failed to fetch track
    details', after the metadata request and nothing else, and leaves the
    module as it was: no strategy is attempted. *)
Theorem playTrack_metadata_failure :
  forall env trackId token volume w,
    token <> "" ->
    (forall t, ~ metadata_resolves env t) ->
    playTrack env trackId (Some token) volume w =
      mkRun (Rejected metadata_failed) w
        [Fetch "GET" (BASE_URL ++ "/tracks/" ++ trackId) ("Bearer " ++ token) []].
Proof.
  intros env trackId token volume w Htok Hno.
  destruct (truthy_Some_nonempty token Htok) as [Ht Ho].
  unfold playTrack. rewrite Ht, Ho. cbn [negb].
  destruct (getTrack_outcome env trackId token w) as [(t & _ & Hm)|(e & He & _)];
    [exfalso; exact (Hno t Hm)|].
  unfold bind, try_catch. rewrite (getTrack_rejected env trackId token w e He).
  reflexivity.
Qed.

Lemma playTrack_metadata_failure_witness :
  playTrack
    (Sample.with_track_answer
       (FetchResponds {| status := 404; statusText := "Not Found"; body := None |})
       (Sample.desktop_premium Sample.track_with_preview))
    "0000000000000000000000" (Some "token") (Num 80) initial_world =
  mkRun (Rejected metadata_failed) initial_world
    [Fetch "GET" (BASE_URL ++ "/tracks/" ++ "0000000000000000000000")
           ("Bearer " ++ "token") []].
Proof.
  apply playTrack_metadata_failure.
  - discriminate.
  - intros t (r & Hr & Hok & _). injection Hr as <-. discriminate Hok.
Defined.

(** ** Loading without playing *)



Ltac prepares_only_side :=
  cbn; first [ split; [ discriminate | reflexivity ]
             | repeat split; reflexivity ].

(** X3.  [loadTrack] never starts playback and never involves the SDK:
    whatever the arguments and the answers, its run issues no [play()] on
    the element, no SDK effect, and leaves the gesture flags and the SDK
    session as they were. *)
Theorem loadTrack_never_plays :
  forall env trackId accessToken volume w,
    Forall (fun e => e <> AudioCall Play /\ is_sdk_effect e = false)
           (effects (loadTrack env trackId accessToken volume w))
    /\ same_flags_and_session w (final (loadTrack env trackId accessToken volume w)).
Proof.
  intros env trackId accessToken volume w.
  assert (H : respects prepares_only (loadTrack env trackId accessToken volume))
    by respects_with prepares_only_side.
  destruct (H w) as [Hrel Heff]. split; assumption.
Qed.

Lemma preparePreview_prepares url v w :
  between 0 100 v = true ->
  outcome (preparePreview url v w) = Resolved tt
  /\ exists el,
       audioElement (final (preparePreview url v w)) = Some el
       /\ src el = url /\ paused el = true /\ currentTime el = Num 0
       /\ volume el = div v (Num 100).
Proof.
  intros Hv. apply volume_in_range_accepted in Hv.
  unfold preparePreview, element_set_volume.
  destruct (div v (Num 100)) as [|q]; [discriminate Hv|]. rewrite Hv.
  destruct w as [[el|] u k sp d ws cb nh];
    (split; [reflexivity | eexists; repeat split; reflexivity]).
Qed.

(** X4.  With a credential, the metadata fetched, a preview URL and a
    volume of 0..100, [loadTrack] resolves with [{type: 'preview', track}]
    and leaves the shared element loaded but not playing: it holds the
    preview URL as source, is paused, stands at position 0 and has the
    volume scaled to 0..1. *)
Theorem loadTrack_prepares :
  forall env trackId token vol w t,
    token <> "" ->
    metadata_resolves env t ->
    truthy (preview_url t) = true ->
    between 0 100 vol = true ->
    outcome (loadTrack env trackId (Some token) vol w)
      = Resolved {| type := preview; track := t; autoplayBlocked := None |}
    /\ exists el,
         audioElement (final (loadTrack env trackId (Some token) vol w)) = Some el
         /\ src el = or_else (preview_url t) ""
         /\ paused el = true
         /\ currentTime el = Num 0
         /\ volume el = div vol (Num 100).
Proof.
  intros env trackId token vol w t Htok Hmeta Hurl Hv.
  destruct (truthy_Some_nonempty token Htok) as [Ht Ho].
  unfold loadTrack. rewrite Ht, Ho. cbn [negb].
  pose proof (getTrack_resolves env trackId token t w Hmeta) as Hg.
  destruct (preparePreview_prepares (or_else (preview_url t) "") vol w Hv)
    as (Hout & el & Hel & Hprops).
  rewrite outcome_bind, final_bind, Hg. cbn [outcome final]. rewrite Hurl.
  rewrite outcome_then_ret, final_bind, Hout. cbn [final ret].
  split; [reflexivity|]. exists el. split; [exact Hel | exact Hprops].
Qed.

Lemma loadTrack_prepares_witness :
  outcome (loadTrack (Sample.iphone_blocked Sample.track_with_preview)
             "4uLU6hMCjMI75M1A2tKUQC" (Some "token") (Num 80) initial_world)
    = Resolved {| type := preview; track := Sample.track_with_preview;
                  autoplayBlocked := None |}
  /\ exists el,
       audioElement (final (loadTrack (Sample.iphone_blocked Sample.track_with_preview)
                              "4uLU6hMCjMI75M1A2tKUQC" (Some "token") (Num 80)
                              initial_world)) = Some el
       /\ src el = or_else (preview_url Sample.track_with_preview) ""
       /\ paused el = true
       /\ currentTime el = Num 0
       /\ volume el = div (Num 80) (Num 100).
Proof.
  apply (loadTrack_prepares (Sample.iphone_blocked Sample.track_with_preview)
           "4uLU6hMCjMI75M1A2tKUQC" "token" (Num 80) initial_world
           Sample.track_with_preview).
  - discriminate.
  - eexists; repeat split; reflexivity.
  - reflexivity.
  - reflexivity.
Defined.

(** ** What [playTrack] can end in *)

Lemma strategy_sdk_outcome env t uri token w :
  match outcome (strategy_sdk env t uri token w) with
  | Resolved (Some r) => r = {| type := full; track := t; autoplayBlocked := None |}
  | Resolved None => True
  | Rejected _ => False
  | Pending => True
  end.
Proof.
  unfold strategy_sdk. destruct (negb (isIOSDevice env)); [|exact I].
  rewrite outcome_try_catch, bind_get, outcome_bind.
  destruct (outcome ((if negb (truthy (deviceId w))
                      then initializeSpotifyPlayer env token;; ret tt
                      else ret tt) w)); try exact I.
  rewrite outcome_then_ret.
  match goal with
  | |- context [outcome (playWithSDK env uri token ?w1)] =>
      destruct (outcome (playWithSDK env uri token w1))
  end; try exact I; reflexivity.
Qed.

Lemma strategy_preview_outcome env t v w :
  match outcome (strategy_preview env t v w) with
  | Resolved (Some r) =>
      truthy (preview_url t) = true
      /\ (r = {| type := preview; track := t; autoplayBlocked := None |}
          \/ r = {| type := preview; track := t; autoplayBlocked := Some true |})
  | Resolved None => True
  | Rejected _ => False
  | Pending => True
  end.
Proof.
  unfold strategy_preview. destruct (truthy (preview_url t)); [|exact I].
  rewrite outcome_try_catch, outcome_then_ret.
  destruct (outcome (playPreview env (or_else (preview_url t) "") v w)) as [a|e|];
    try exact I.
  - split; [reflexivity | left; reflexivity].
  - destruct (instanceof_AutoplayBlockedError e); cbn.
    + split; [reflexivity | right; reflexivity].
    + exact I.
Qed.

Lemma strategy_connect_outcome env t uri token w :
  match outcome (strategy_connect env t uri token w) with
  | Resolved (Some r) => r = {| type := full; track := t; autoplayBlocked := None |}
  | Resolved None => True
  | Rejected _ => False
  | Pending => True
  end.
Proof.
  unfold strategy_connect. rewrite outcome_try_catch, outcome_then_ret.
  destruct (outcome (playWithConnectAPI env uri token w)); try exact I; reflexivity.
Qed.

(** X5.  Once the metadata is in hand, [playTrack] rejects with one error
    only, the terminal 'Could not play track. Please open Spotify on a
    device and try again.': no error of the SDK, of the audio element or of
    the remote dispatch reaches the caller.  And a result it resolves with
    carries the track the metadata request answered, is of type 'full'
    without [autoplayBlocked], or of type 'preview' for a track that has a
    preview URL. *)
Theorem playTrack_endings :
  forall env trackId token vol w t,
    token <> "" ->
    metadata_resolves env t ->
    match outcome (playTrack env trackId (Some token) vol w) with
    | Rejected e => e = nothing_could_play
    | Resolved r =>
        track r = t
        /\ ((type r = full /\ autoplayBlocked r = None)
            \/ (type r = preview
                /\ truthy (preview_url t) = true
                /\ (autoplayBlocked r = None \/ autoplayBlocked r = Some true)))
    | Pending => True
    end.
Proof.
  intros env trackId token vol w t Htok Hmeta.
  destruct (truthy_Some_nonempty token Htok) as [Ht Ho].
  pose proof (getTrack_resolves env trackId token t w Hmeta) as Hg.
  unfold playTrack. rewrite Ht, Ho. cbn [negb].
  rewrite outcome_bind, outcome_try_catch, final_try_catch, Hg.
  cbn [outcome final].
  rewrite outcome_bind.
  pose proof (strategy_sdk_outcome env t ("spotify:track:" ++ trackId) token w)
    as H1.
  destruct (outcome (strategy_sdk env t ("spotify:track:" ++ trackId) token w))
    as [[r|]|e|]; try contradiction; try exact I.
  { subst r. cbn. split; [reflexivity | left; split; reflexivity]. }
  rewrite outcome_bind.
  match goal with
  | |- context [outcome (strategy_preview env t vol ?w1)] =>
      pose proof (strategy_preview_outcome env t vol w1) as H2;
      destruct (outcome (strategy_preview env t vol w1)) as [[r|]|e|]
  end; try contradiction; try exact I.
  { destruct H2 as [Hurl [-> | ->]]; cbn; (split; [reflexivity | right]);
      (split; [reflexivity | split; [exact Hurl|]]); [left | right]; reflexivity. }
  rewrite outcome_bind.
  match goal with
  | |- context [outcome (strategy_connect env t ?u ?tok ?w1)] =>
      pose proof (strategy_connect_outcome env t u tok w1) as H3;
      destruct (outcome (strategy_connect env t u tok w1)) as [[r|]|e|]
  end; try contradiction; try exact I.
  - subst r. cbn. split; [reflexivity | left; split; reflexivity].
  - cbn. reflexivity.
Qed.

Lemma playTrack_endings_witness :
  match outcome (playTrack (Sample.iphone_blocked Sample.track_with_preview)
                   "4uLU6hMCjMI75M1A2tKUQC" (Some "token") (Num 80) initial_world)
  with
  | Rejected e => e = nothing_could_play
  | Resolved r =>
      track r = Sample.track_with_preview
      /\ ((type r = full /\ autoplayBlocked r = None)
          \/ (type r = preview
              /\ truthy (preview_url Sample.track_with_preview) = true
              /\ (autoplayBlocked r = None \/ autoplayBlocked r = Some true)))
  | Pending => True
  end.
Proof.
  apply (playTrack_endings (Sample.iphone_blocked Sample.track_with_preview)
           "4uLU6hMCjMI75M1A2tKUQC" "token" (Num 80) initial_world
           Sample.track_with_preview).
  - discriminate.
  - eexists; repeat split; reflexivity.
Defined.

(** ** Full playback through the SDK *)

Ltac no_preview_side := cbn; first [ reflexivity | repeat split; reflexivity ].

Lemma strategy_sdk_no_preview env t uri token :
  respects no_preview (strategy_sdk env t uri token).
Proof. respects_with no_preview_side. Qed.

(** X6.  When the SDK strategy succeeds (first initialising the SDK when
    no device id is known, then issuing the play command), [playTrack]
    resolves with exactly [{type: 'full', track}], and the preview engine
    and the remote dispatch stay out of it: the audio element is neither
    created nor called, the gesture flags are unchanged, and no request goes
    to the play endpoint without a device id. *)
Theorem playTrack_full_via_SDK :
  forall env trackId token vol w t r,
    token <> "" ->
    metadata_resolves env t ->
    outcome (strategy_sdk env t ("spotify:track:" ++ trackId) token w)
      = Resolved (Some r) ->
    outcome (playTrack env trackId (Some token) vol w)
      = Resolved {| type := full; track := t; autoplayBlocked := None |}
    /\ same_preview_engine w (final (playTrack env trackId (Some token) vol w))
    /\ Forall (fun e => is_preview_or_connect_effect e = false)
              (effects (playTrack env trackId (Some token) vol w)).
Proof.
  intros env trackId token vol w t r Htok Hmeta Hsdk.
  destruct (truthy_Some_nonempty token Htok) as [Ht Ho].
  pose proof (strategy_sdk_outcome env t ("spotify:track:" ++ trackId) token w) as Hr.
  rewrite Hsdk in Hr. subst r.
  destruct (strategy_sdk_no_preview env t ("spotify:track:" ++ trackId) token w)
    as [Hrel Heff].
  unfold playTrack. rewrite Ht, Ho. cbn [negb].
  pose proof (getTrack_resolves env trackId token t w Hmeta) as Hg.
  rewrite outcome_bind, final_bind, effects_bind.
  rewrite outcome_try_catch, final_try_catch, effects_try_catch, Hg.
  cbn [outcome final effects].
  rewrite outcome_bind, final_bind, effects_bind, Hsdk. cbn [outcome final effects ret].
  rewrite app_nil_r.
  split; [reflexivity | split; [exact Hrel|]].
  constructor; [reflexivity | exact Heff].
Qed.

Lemma playTrack_full_via_SDK_witness :
  outcome (playTrack (Sample.desktop_premium Sample.track_with_preview)
             "4uLU6hMCjMI75M1A2tKUQC" (Some "token") (Num 80) initial_world)
    = Resolved {| type := full; track := Sample.track_with_preview;
                  autoplayBlocked := None |}
  /\ same_preview_engine initial_world
       (final (playTrack (Sample.desktop_premium Sample.track_with_preview)
                 "4uLU6hMCjMI75M1A2tKUQC" (Some "token") (Num 80) initial_world))
  /\ Forall (fun e => is_preview_or_connect_effect e = false)
            (effects (playTrack (Sample.desktop_premium Sample.track_with_preview)
                        "4uLU6hMCjMI75M1A2tKUQC" (Some "token") (Num 80)
                        initial_world)).
Proof.
  apply (playTrack_full_via_SDK (Sample.desktop_premium Sample.track_with_preview)
           "4uLU6hMCjMI75M1A2tKUQC" "token" (Num 80) initial_world
           Sample.track_with_preview
           {| type := full; track := Sample.track_with_preview;
              autoplayBlocked := None |}).
  - discriminate.
  - eexists; repeat split; reflexivity.
  - reflexivity.
Defined.

(** ** How a preview attempt ends *)

(** Running a computation on a world given by its fields. *)
Ltac exec :=
  cbv beta iota zeta delta
    [bind try_catch get modify emit ret throw never when void
     update_element element_set element_pause element_load
     stopPreview ensureAudioElement
     outcome final effects
     audioElement audioUnlocked keepAliveActive spotifyPlayer deviceId
     window_Spotify onSpotifyWebPlaybackSDKReady next_handler
     set_audioElement set_audioUnlocked set_keepAliveActive set_spotifyPlayer
     set_deviceId set_window_Spotify set_onReady set_next_handler
     with_src with_preload with_loop with_muted with_currentTime with_volume
     with_paused with_listeners new_Audio option_map
     src preload loop muted currentTime volume paused duration
     timeupdate_listeners negb app].

Lemma playPreview_settles :
  forall env url vol w,
    match outcome (playPreview env url vol w) with
    | Resolved _ =>
        keepAliveActive (final (playPreview env url vol w)) = false
        /\ exists el,
             audioElement (final (playPreview env url vol w)) = Some el
             /\ src el = url /\ loop el = false /\ muted el = false
             /\ volume el = div vol (Num 100)
    | Rejected e =>
        keepAliveActive (final (playPreview env url vol w)) = keepAliveActive w
        /\ (e = AutoplayBlockedError
            \/ e = Error "Failed to play audio preview"
            \/ (between 0 100 vol = false
                /\ (e = IndexSizeError \/ e = NonFiniteTypeError)
                /\ ~ In (AudioCall Play) (effects (playPreview env url vol w))))
    | Pending => True
    end.
Proof.
  intros env url vol w.
  unfold playPreview, element_set_volume, element_play, waitForPlaybackStart.
  destruct (between 0 100 vol) eqn:Hv.
  - pose proof (volume_in_range_accepted vol Hv) as Hv'.
    destruct (div vol (Num 100)) as [|q]; [discriminate Hv'|]. rewrite Hv'.
    destruct (playOutcome env) as [e|];
      [destruct (isAutoplayBlockedError e) eqn:He|];
      try (destruct (first_finish (startEvents env)) as [[|]|];
           try destruct (pausedAtTimeout env));
      destruct w as [[el|] u [|] sp d ws cb nh]; exec; rewrite ?He; exec;
      first [ split; [reflexivity | eexists; repeat split; reflexivity]
            | split; [reflexivity | left; reflexivity]
            | split; [reflexivity | right; left; reflexivity] ].
  - destruct (div vol (Num 100)) as [|q];
      [|destruct (between 0 1 (Num q)) eqn:Hq].
    + destruct w as [[el|] u [|] sp d ws cb nh]; exec;
        (split; [reflexivity | right; right]);
        (split; [reflexivity | split; [right; reflexivity|]]);
        intros H; repeat (destruct H as [H|H]; [discriminate H|]); exact H.
    + destruct (playOutcome env) as [e|];
        [destruct (isAutoplayBlockedError e) eqn:He|];
        try (destruct (first_finish (startEvents env)) as [[|]|];
             try destruct (pausedAtTimeout env));
        destruct w as [[el|] u [|] sp d ws cb nh]; exec; rewrite ?He; exec;
        first [ split; [reflexivity | eexists; repeat split; reflexivity]
              | split; [reflexivity | left; reflexivity]
              | split; [reflexivity | right; left; reflexivity] ].
    + destruct w as [[el|] u [|] sp d ws cb nh]; exec;
        (split; [reflexivity | right; right]);
        (split; [reflexivity | split; [left; reflexivity|]]);
        intros H; repeat (destruct H as [H|H]; [discriminate H|]); exact H.
Qed.

(** X7.  How [playPreview] ends.  When it resolves, the keep-alive
    bookkeeping is off and the shared element is set up for the clip: source
    set to the URL, not looping, not muted, volume scaled to 0..1.  When it
    rejects, [keepAliveActive] is what it was, and the error is an
    [AutoplayBlockedError] or 'Failed to play audio preview' -- or, for a
    volume outside 0..100 only, the error of the element's volume setter,
    raised before [play()] is called. *)
Theorem playPreview_endings :
  forall env url vol w,
    match outcome (playPreview env url vol w) with
    | Resolved _ =>
        keepAliveActive (final (playPreview env url vol w)) = false
        /\ exists el,
             audioElement (final (playPreview env url vol w)) = Some el
             /\ src el = url /\ loop el = false /\ muted el = false
             /\ volume el = div vol (Num 100)
    | Rejected e =>
        keepAliveActive (final (playPreview env url vol w)) = keepAliveActive w
        /\ (e = AutoplayBlockedError
            \/ e = Error "Failed to play audio preview"
            \/ (between 0 100 vol = false
                /\ (e = IndexSizeError \/ e = NonFiniteTypeError)
                /\ ~ In (AudioCall Play) (effects (playPreview env url vol w))))
    | Pending => True
    end.
Proof. exact playPreview_settles. Qed.

(** ** Priming the element during a gesture *)

(** X8.  [unlockAudio] never rejects, whatever the element answers.  Once
    [audioUnlocked] is set a call does nothing at all.  Before that, a call
    whose [play()] resolves sets the flag and leaves the element paused at
    position 0 on the silent clip; a call whose [play()] is rejected leaves
    the flag unset, so that a later gesture can try again.  In no case does
    it change [keepAliveActive]. *)
Theorem unlockAudio_behaviour :
  forall env w,
    outcome (unlockAudio env w) = Resolved tt
    /\ keepAliveActive (final (unlockAudio env w)) = keepAliveActive w
    /\ (audioUnlocked w = true -> unlockAudio env w = mkRun (Resolved tt) w [])
    /\ (audioUnlocked w = false ->
        match playOutcome env with
        | None =>
            audioUnlocked (final (unlockAudio env w)) = true
            /\ exists el,
                 audioElement (final (unlockAudio env w)) = Some el
                 /\ src el = SILENT_AUDIO_SRC /\ paused el = true
                 /\ currentTime el = Num 0
        | Some _ => audioUnlocked (final (unlockAudio env w)) = false
        end).
Proof.
  intros env w. unfold unlockAudio, element_set_volume, element_play.
  change (between 0 1 (Num 0)) with true.
  destruct w as [[el|] [|] k sp d ws cb nh]; destruct (playOutcome env); exec;
    repeat split; try reflexivity; try discriminate;
    eexists; repeat split; reflexivity.
Qed.

Lemma unlockAudio_behaviour_witness :
  unlockAudio (Sample.iphone_blocked Sample.track_with_preview)
    (final (unlockAudio (Sample.iphone_blocked Sample.track_with_preview) initial_world))
  = mkRun (Resolved tt)
      (final (unlockAudio (Sample.iphone_blocked Sample.track_with_preview) initial_world))
      [].
Proof.
  apply (unlockAudio_behaviour (Sample.iphone_blocked Sample.track_with_preview)).
  reflexivity.
Defined.

(** X9.  Keep-alive, started and stopped.  [startAutoplayKeepAlive] and
    [stopAutoplayKeepAlive] never reject, and stopping when keep-alive is not
    active does nothing.  After a start whose [play()] resolves, a stop
    leaves [keepAliveActive] false and [audioUnlocked] true, with the element
    paused at position 0, not looping and not muted; its volume is still the
    0 the start gave it, and its source the silent clip. *)
Theorem keepAlive_start_then_stop :
  forall env w,
    outcome (startAutoplayKeepAlive env w) = Resolved tt
    /\ outcome (stopAutoplayKeepAlive w) = Resolved tt
    /\ (keepAliveActive w = false -> stopAutoplayKeepAlive w = mkRun (Resolved tt) w [])
    /\ (keepAliveActive w = false ->
        playOutcome env = None ->
        let w' := final (stopAutoplayKeepAlive (final (startAutoplayKeepAlive env w))) in
        keepAliveActive w' = false
        /\ audioUnlocked w' = true
        /\ exists el,
             audioElement w' = Some el
             /\ loop el = false /\ muted el = false /\ paused el = true
             /\ currentTime el = Num 0 /\ volume el = Num 0
             /\ src el = SILENT_AUDIO_SRC).
Proof.
  intros env w.
  unfold startAutoplayKeepAlive, stopAutoplayKeepAlive, element_set_volume, element_play.
  change (between 0 1 (Num 0)) with true.
  destruct w as [[el|] u [|] sp d ws cb nh]; destruct (playOutcome env); exec;
    repeat split; try reflexivity; try discriminate;
    eexists; repeat split; reflexivity.
Qed.

Lemma keepAlive_start_then_stop_witness :
  let w' := final (stopAutoplayKeepAlive
                     (final (startAutoplayKeepAlive
                               (Sample.iphone_blocked Sample.track_with_preview)
                               initial_world))) in
  keepAliveActive w' = false
  /\ audioUnlocked w' = true
  /\ exists el,
       audioElement w' = Some el
       /\ loop el = false /\ muted el = false /\ paused el = true
       /\ currentTime el = Num 0 /\ volume el = Num 0
       /\ src el = SILENT_AUDIO_SRC.
Proof.
  apply (keepAlive_start_then_stop (Sample.iphone_blocked Sample.track_with_preview)
           initial_world); reflexivity.
Defined.

(** ** Pause and resume while an SDK player object exists *)

(** X10.  While an SDK player object exists, [pause] and [resume] address
    the SDK player only: each issues the one SDK call, settles as the SDK
    does, and leaves the module unchanged -- the shared audio element is
    neither called nor changed, even when a preview is playing on it. *)
Theorem pause_resume_with_SDK_player :
  forall env w p,
    spotifyPlayer w = Some p ->
    pause env w =
      mkRun (match sdkPauseOutcome env with
             | None => Resolved tt
             | Some e => Rejected e
             end) w [SDKCall SDKPause]
    /\ resume env w =
         mkRun (match sdkResumeOutcome env with
                | None => Resolved tt
                | Some e => Rejected e
                end) w [SDKCall SDKResume].
Proof.
  intros env w p Hp. unfold pause, resume. rewrite !bind_get, Hp.
  destruct (sdkPauseOutcome env), (sdkResumeOutcome env); split; reflexivity.
Qed.



Lemma pause_resume_with_SDK_player_witness :
  pause (Sample.desktop_premium Sample.track_with_preview)
    (final (initializeSpotifyPlayer
              (Sample.account_error (Sample.desktop_premium Sample.track_with_preview))
              "token" initial_world))
  = mkRun (Resolved tt)
      (final (initializeSpotifyPlayer
                (Sample.account_error (Sample.desktop_premium Sample.track_with_preview))
                "token" initial_world))
      [SDKCall SDKPause].
Proof.
  eapply (pause_resume_with_SDK_player
            (Sample.desktop_premium Sample.track_with_preview)).
  reflexivity.
Defined.

(** A preview the strategy reports as started is the clip of the track,
    on the shared element. *)
Lemma strategy_preview_started env t v w r :
  outcome (strategy_preview env t v w) = Resolved (Some r) ->
  autoplayBlocked r = None ->
  track r = t
  /\ exists el,
       audioElement (final (strategy_preview env t v w)) = Some el
       /\ src el = or_else (preview_url t) "".
Proof.
  unfold strategy_preview. destruct (truthy (preview_url t)); [|discriminate].
  rewrite outcome_try_catch, final_try_catch, outcome_then_ret, final_bind.
  pose proof (playPreview_settles env (or_else (preview_url t) "") v w) as Hp.
  destruct (outcome (playPreview env (or_else (preview_url t) "") v w)) as [a|e|];
    [| |discriminate].
  - intros H _. injection H as <-. split; [reflexivity|].
    destruct Hp as (_ & el & Hel & Hsrc & _).
    exists el. split; [exact Hel | exact Hsrc].
  - destruct (instanceof_AutoplayBlockedError e); cbn.
    + intros H Hb. injection H as <-. discriminate Hb.
    + discriminate.
Qed.

Lemma playTrack_preview_started env trackId accessToken vol w r :
  outcome (playTrack env trackId accessToken vol w) = Resolved r ->
  type r = preview ->
  autoplayBlocked r = None ->
  exists el,
    audioElement (final (playTrack env trackId accessToken vol w)) = Some el
    /\ src el = or_else (preview_url (track r)) "".
Proof.
  unfold playTrack. destruct (negb (truthy accessToken)); [discriminate|].
  rewrite outcome_bind, final_bind, outcome_try_catch, final_try_catch.
  destruct (getTrack_outcome env trackId (or_else accessToken "") w)
    as [(t & Ht & Hm)|(e & He & _)]; [rewrite Ht | rewrite He; discriminate].
  set (w1 := final (getTrack env trackId (or_else accessToken "") w)).
  rewrite outcome_bind, final_bind.
  pose proof (strategy_sdk_outcome env t ("spotify:track:" ++ trackId)
                (or_else accessToken "") w1) as H1.
  destruct (outcome (strategy_sdk env t ("spotify:track:" ++ trackId)
                       (or_else accessToken "") w1))
    as [[r1|]|e|]; try contradiction; try discriminate.
  { subst r1. cbn. intros H Hty. injection H as <-. discriminate Hty. }
  set (w2 := final (strategy_sdk env t ("spotify:track:" ++ trackId)
                      (or_else accessToken "") w1)).
  rewrite outcome_bind, final_bind.
  pose proof (strategy_preview_outcome env t vol w2) as H2.
  pose proof (strategy_preview_started env t vol w2) as Hs.
  destruct (outcome (strategy_preview env t vol w2)) as [[r2|]|e|];
    try contradiction; try discriminate.
  { cbn. intros H _ Hb. injection H as <-.
    destruct (Hs r2 eq_refl Hb) as [-> Hel]. exact Hel. }
  set (w3 := final (strategy_preview env t vol w2)).
  rewrite outcome_bind, final_bind.
  pose proof (strategy_connect_outcome env t ("spotify:track:" ++ trackId)
                (or_else accessToken "") w3) as H3.
  destruct (outcome (strategy_connect env t ("spotify:track:" ++ trackId)
                       (or_else accessToken "") w3))
    as [[r3|]|e|]; try contradiction; try discriminate.
  subst r3. cbn. intros H Hty. injection H as <-. discriminate Hty.
Qed.

(** X12.  After a [playTrack] that resolved with a started preview while an
    SDK player object exists (as it does once the SDK strategy constructed
    the player and then failed, for example on an account without Premium),
    the shared element holds the clip of that track, and a call of [pause]
    does not reach it: [pause] issues the one SDK call, settles as the SDK
    does and leaves the module, the element included, as it is. *)
Theorem pause_after_fallback_misses_preview :
  forall env trackId accessToken vol w r env',
    outcome (playTrack env trackId accessToken vol w) = Resolved r ->
    type r = preview ->
    autoplayBlocked r = None ->
    spotifyPlayer (final (playTrack env trackId accessToken vol w)) <> None ->
    let w1 := final (playTrack env trackId accessToken vol w) in
    (exists el,
        audioElement w1 = Some el
        /\ src el = or_else (preview_url (track r)) ""
        /\ audioElement (final (pause env' w1)) = Some el)
    /\ pause env' w1 =
         mkRun (match sdkPauseOutcome env' with
                | None => Resolved tt
                | Some e => Rejected e
                end) w1 [SDKCall SDKPause].
Proof.
  intros env trackId accessToken vol w r env' Hout Hty Hb Hsp w1.
  destruct (playTrack_preview_started env trackId accessToken vol w r Hout Hty Hb)
    as (el & Hel & Hsrc).
  fold w1 in Hel, Hsp.
  assert (Hpause : pause env' w1 =
            mkRun (match sdkPauseOutcome env' with
                   | None => Resolved tt
                   | Some e => Rejected e
                   end) w1 [SDKCall SDKPause]).
  { unfold pause. rewrite bind_get.
    destruct (spotifyPlayer w1); [|contradiction].
    destruct (sdkPauseOutcome env'); reflexivity. }
  split; [|exact Hpause].
  exists el. rewrite Hpause. cbn [final]. auto.
Qed.

Lemma pause_after_fallback_misses_preview_witness :
  pause (Sample.desktop_premium Sample.track_with_preview)
        (final (playTrack
                  (Sample.account_error
                     (Sample.desktop_premium Sample.track_with_preview))
                  "4uLU6hMCjMI75M1A2tKUQC" (Some "token") (Num 80)
                  initial_world))
  = mkRun (Resolved tt)
      (final (playTrack
                (Sample.account_error
                   (Sample.desktop_premium Sample.track_with_preview))
                "4uLU6hMCjMI75M1A2tKUQC" (Some "token") (Num 80)
                initial_world))
      [SDKCall SDKPause].
Proof.
  refine (proj2 (pause_after_fallback_misses_preview
            (Sample.account_error (Sample.desktop_premium Sample.track_with_preview))
            "4uLU6hMCjMI75M1A2tKUQC" (Some "token") (Num 80) initial_world
            {| type := preview; track := Sample.track_with_preview;
               autoplayBlocked := None |}
            (Sample.desktop_premium Sample.track_with_preview) _ _ _ _)).
  - reflexivity.
  - reflexivity.
  - reflexivity.
  - discriminate.
Defined.

(** ** Disconnecting and stopping *)

(** X13.  [disconnectPlayer] never rejects and is safe without a player:
    then it only stops the preview.  With a player it disconnects it and
    clears player object and device id, so that a [playWithSDK] issued
    afterwards rejects with 'Spotify player not initialized' without any
    request.  Either way the preview (if the element exists) is left paused
    at position 0, the gesture flags and [window.Spotify] are as before, and
    [pause] goes to the preview engine again. *)
Theorem disconnectPlayer_clears_session :
  forall env w uri token,
    let w1 := final (disconnectPlayer w) in
    outcome (disconnectPlayer w) = Resolved tt
    /\ spotifyPlayer w1 = None
    /\ window_Spotify w1 = window_Spotify w
    /\ audioUnlocked w1 = audioUnlocked w
    /\ keepAliveActive w1 = keepAliveActive w
    /\ audioElement w1 =
         option_map (fun el => with_currentTime (Num 0) (with_paused true el))
                    (audioElement w)
    /\ pause env w1 = pausePreview w1
    /\ (spotifyPlayer w = None ->
        deviceId w1 = deviceId w
        /\ Forall (fun e => is_sdk_effect e = false) (effects (disconnectPlayer w)))
    /\ (spotifyPlayer w <> None ->
        deviceId w1 = None
        /\ In (SDKCall Disconnect) (effects (disconnectPlayer w))
        /\ playWithSDK env uri token w1 =
             mkRun (Rejected (Error "Spotify player not initialized")) w1 []).
Proof.
  intros env w uri token.
  unfold disconnectPlayer, playWithSDK, pause.
  destruct w as [[el|] u k [sp|] d ws cb nh]; exec;
    repeat split; try reflexivity; try congruence;
    try (left; reflexivity);
    repeat (apply Forall_cons; [reflexivity|]); apply Forall_nil.
Qed.

Lemma disconnectPlayer_clears_session_witness :
  playWithSDK (Sample.desktop_premium Sample.track_with_preview)
    "spotify:track:4uLU6hMCjMI75M1A2tKUQC" "token"
    (final (disconnectPlayer
              (final (playTrack (Sample.desktop_premium Sample.track_with_preview)
                        "4uLU6hMCjMI75M1A2tKUQC" (Some "token") (Num 80)
                        initial_world))))
  = mkRun (Rejected (Error "Spotify player not initialized"))
      (final (disconnectPlayer
                (final (playTrack (Sample.desktop_premium Sample.track_with_preview)
                          "4uLU6hMCjMI75M1A2tKUQC" (Some "token") (Num 80)
                          initial_world))))
      [].
Proof.
  eapply (disconnectPlayer_clears_session
            (Sample.desktop_premium Sample.track_with_preview)).
  discriminate.
Defined.

(** X14.  [stopPreview] rewinds: after it [getPreviewProgress] reports
    position 0 and [isPreviewPlaying] answers false, whatever was playing;
    and [resumePreview], which never rejects (a refused [play()] is only
    logged), then plays from position 0 when [play()] resolves. *)
Theorem stopPreview_rewinds :
  forall env w el,
    audioElement w = Some el ->
    let w1 := final (stopPreview w) in
    let w2 := final (resumePreview env w1) in
    (exists p, outcome (getPreviewProgress w1) = Resolved p
               /\ num_eq (current p) (Num 0))
    /\ outcome (isPreviewPlaying w1) = Resolved false
    /\ outcome (resumePreview env w1) = Resolved tt
    /\ (playOutcome env = None ->
        outcome (isPreviewPlaying w2) = Resolved true
        /\ exists p, outcome (getPreviewProgress w2) = Resolved p
                     /\ num_eq (current p) (Num 0))
    /\ (playOutcome env <> None -> w2 = w1).
Proof.
  intros env w el Hel.
  unfold stopPreview, resumePreview, getPreviewProgress, isPreviewPlaying, element_play.
  destruct w as [ae u k sp d ws cb nh]. cbn in Hel. subst ae.
  destruct (playOutcome env) as [e|]; exec; repeat split;
    try reflexivity; try discriminate; try congruence;
    try (eexists; split; reflexivity).
Qed.

Lemma stopPreview_rewinds_witness :
  outcome (isPreviewPlaying
             (final (stopPreview
                       (final (playPreview
                                 (Sample.iphone_starts Sample.track_with_preview)
                                 "https://p.scdn.co/mp3-preview/clip" (Num 80)
                                 initial_world)))))
    = Resolved false.
Proof.
  eapply (stopPreview_rewinds (Sample.iphone_starts Sample.track_with_preview)).
  reflexivity.
Defined.

(** ** Progress subscriptions *)

Lemma filter_other_handlers (l : list (nat * nat)) (h : nat) :
  Forall (fun hc => fst hc < h) l ->
  filter (fun hc => negb (Nat.eqb (fst hc) h)) l = l.
Proof.
  induction 1 as [|[h' c] l Hlt _ IH]; [reflexivity|]. cbn in *.
  destruct (Nat.eqb_spec h' h); [lia|]. cbn. now rewrite IH.
Qed.

Lemma filter_drops_handler (l : list (nat * nat)) (h c : nat) :
  Forall (fun hc => fst hc < h) l ->
  filter (fun hc => negb (Nat.eqb (fst hc) h)) (l ++ [(h, c)]) = l.
Proof.
  intros H. rewrite filter_app, (filter_other_handlers l h H). cbn.
  rewrite Nat.eqb_refl. cbn. apply app_nil_r.
Qed.

(** X15.  Subscribing to progress and disposing is a round trip on the
    element's [timeupdate] listeners: [onPreviewProgress] appends one
    listener for the callback, the closure it returns removes exactly that
    listener, and calling the closure a second time changes nothing.
    Handler identities are fresh, as the identities of closures are. *)
Theorem progress_subscription_round_trip :
  forall w el callback,
    audioElement w = Some el ->
    Forall (fun hc => fst hc < next_handler w) (timeupdate_listeners el) ->
    let u := unsubscribe_handler (next_handler w) in
    let w1 := final (onPreviewProgress callback w) in
    let w2 := final (unsubscribe u w1) in
    outcome (onPreviewProgress callback w) = Resolved u
    /\ audioElement w1 =
         Some (with_listeners
                 (timeupdate_listeners el ++ [(next_handler w, callback)]) el)
    /\ audioElement w2 = Some (with_listeners (timeupdate_listeners el) el)
    /\ final (unsubscribe u w2) = w2.
Proof.
  intros w el callback Hel Hfresh.
  unfold onPreviewProgress, unsubscribe.
  destruct w as [ae u k sp d ws cb nh]. cbn in Hel, Hfresh. subst ae.
  cbv beta iota zeta delta
    [bind get modify emit ret element_set update_element outcome final
     audioElement next_handler set_audioElement set_next_handler option_map
     with_listeners].
  cbn [src preload loop muted currentTime volume paused duration
       timeupdate_listeners].
  rewrite (filter_drops_handler _ nh callback Hfresh).
  rewrite (filter_other_handlers _ nh Hfresh).
  repeat split.
Qed.

Lemma progress_subscription_round_trip_witness :
  let w := final (preparePreview "https://p.scdn.co/mp3-preview/clip" (Num 80)
                    initial_world) in
  option_map timeupdate_listeners
    (audioElement (final (unsubscribe (unsubscribe_handler (next_handler w))
                            (final (onPreviewProgress 7 w)))))
  = Some [].
Proof.
  cbv zeta.
  pose proof (progress_subscription_round_trip
                (final (preparePreview "https://p.scdn.co/mp3-preview/clip" (Num 80)
                          initial_world))
                (with_volume (Num (80 / 100))
                   (with_currentTime (Num 0)
                      (with_src "https://p.scdn.co/mp3-preview/clip"
                         (with_preload "auto" new_Audio))))
                7 eq_refl (Forall_nil _)) as (_ & _ & H & _).
  rewrite H. reflexivity.
Defined.

(** ** Recognising a blocked start *)

Lemma toLowerCase_app (a b : string) :
  toLowerCase (a ++ b) = toLowerCase a ++ toLowerCase b.
Proof. induction a as [|c a IH]; cbn; [reflexivity | now rewrite IH]. Qed.

Lemma prefix_app (n post : string) : prefix n (n ++ post) = true.
Proof.
  induction n as [|c n IH]; cbn; [destruct post; reflexivity|].
  destruct (ascii_dec c c); [exact IH | congruence].
Qed.

Lemma includes_app (n pre post : string) : includes n (pre ++ n ++ post) = true.
Proof.
  induction pre as [|c pre IH].
  - cbn [append]. destruct (n ++ post) eqn:E; cbn [includes];
      rewrite <- E, prefix_app; reflexivity.
  - cbn [append includes]. rewrite IH. now destruct (prefix n _).
Qed.

(** X16.  [isAutoplayBlockedError] reads the message of an [Error]
    without regard to letter case: an [Error] (or subclass) whose message
    contains 'autoplay', 'not allowed' or 'notallowed' in any mix of upper
    and lower case is a blocked start.  For a [DOMException] only the name
    counts, which must be exactly 'NotAllowedError'; its message is not
    looked at.  A thrown value that is no error object is never one. *)
Theorem isAutoplayBlockedError_reading :
  (forall c nm pre word post,
      c = ErrorC \/ c = AutoplayBlockedErrorC ->
      toLowerCase word = "autoplay" \/ toLowerCase word = "not allowed"
      \/ toLowerCase word = "notallowed" ->
      isAutoplayBlockedError (mkThrown c nm (pre ++ word ++ post)) = true)
  /\ (forall nm msg,
        isAutoplayBlockedError (mkThrown DOMExceptionC nm msg) = true
        <-> nm = "NotAllowedError")
  /\ (forall nm msg, isAutoplayBlockedError (mkThrown NotAnError nm msg) = false).
Proof.
  split; [|split].
  - intros c nm pre word post Hc Hw.
    assert (Hin : forall n, toLowerCase word = n ->
                  includes n (toLowerCase (pre ++ word ++ post)) = true).
    { intros n <-. rewrite !toLowerCase_app. apply includes_app. }
    unfold isAutoplayBlockedError.
    destruct Hc as [-> | ->]; cbn [instanceof_DOMException instanceof_Error cls message];
      destruct Hw as [Hw|[Hw|Hw]]; rewrite (Hin _ Hw);
      rewrite ?orb_true_r; reflexivity.
  - intros nm msg. unfold isAutoplayBlockedError.
    cbn [instanceof_DOMException cls name]. apply String.eqb_eq.
  - reflexivity.
Qed.

Lemma isAutoplayBlockedError_reading_witness :
  isAutoplayBlockedError
    (mkThrown ErrorC "Error"
       ("play() failed: " ++ "AutoPlay" ++ " is disabled by the user agent")) = true.
Proof.
  apply (proj1 isAutoplayBlockedError_reading).
  - left. reflexivity.
  - left. reflexivity.
Defined.

(* ===================================================================== *)
(** * Further properties of the store and of the hook *)
(* ===================================================================== *)

Lemma setVolume_clamps_witness :
  Store.volume (Store.setVolume (Num (-5)) Store.initial) = Num 0
  /\ Store.volume (Store.setVolume (Num 150) Store.initial) = Num 100
  /\ num_eq (Store.volume (Store.setVolume (Num 42) Store.initial)) (Num 42).
Proof.
  split; [|split].
  - apply (setVolume_clamps (-5) Store.initial). reflexivity.
  - apply (setVolume_clamps 150 Store.initial). reflexivity.
  - apply (setVolume_clamps 42 Store.initial). split; discriminate.
Defined.

(** X17.  Clamping is idempotent: storing the stored volume again changes
    nothing, for every number.  [setVolume] changes no field but the volume.
    [NaN], which no comparison orders, passes through the clamp and is
    stored as it is. *)
Theorem setVolume_idempotent :
  forall v s,
    Store.setVolume (Store.volume (Store.setVolume v s)) (Store.setVolume v s)
      = Store.setVolume v s
    /\ Store.setVolume v s =
         {| Store.currentTrack := Store.currentTrack s;
            Store.isPlaying := Store.isPlaying s;
            Store.playbackType := Store.playbackType s;
            Store.progress := Store.progress s;
            Store.volume := Store.volume (Store.setVolume v s);
            Store.error := Store.error s;
            Store.isLoading := Store.isLoading s |}
    /\ Store.volume (Store.setVolume NaN s) = NaN.
Proof.
  intros v s. split; [|split; reflexivity].
  unfold Store.setVolume. cbn [Store.volume Store.currentTrack Store.isPlaying
    Store.playbackType Store.progress Store.error Store.isLoading].
  f_equal. destruct v as [|q]; [reflexivity|]. cbn [Math_min Math_max].
  f_equal. unfold Qmax, Qmin, GenericMinMax.gmax, GenericMinMax.gmin.
  destruct (Qcompare_spec 100 q) as [H1|H1|H1]; try reflexivity.
  destruct (Qcompare_spec 0 q) as [H0|H0|H0]; try reflexivity.
  destruct (Qcompare_spec 100 q) as [H1'|H1'|H1']; try lra.
  destruct (Qcompare_spec 0 q) as [H0'|H0'|H0']; try lra. reflexivity.
Qed.

(** X18.  The hook's [play] never throws.  It asks [playTrack] with the
    default volume 80 and, once that settles, the store is not loading any
    more.  On success the store holds the track and the playback type of
    the result, progress 0, no error, and reports playing.  On failure the
    error field holds the message of the rejection, whatever error it is
    ('Failed to play track' for a thrown value that is no [Error]), and
    track, playing flag, playback type and progress are what they were.
    While [playTrack] has not settled the store is loading, with the error
    cleared.  The volume is never changed. *)
Theorem hook_play_settles_store :
  forall env accessToken trackId s w,
    let h := Hook.play env accessToken trackId s w in
    Store.volume (Hook.store_after h) = Store.volume s
    /\ (forall e, outcome (Hook.page h) <> Rejected e)
    /\ match outcome (playTrack env trackId accessToken (Num 80) w) with
       | Resolved r =>
           Hook.store_after h =
             {| Store.currentTrack := Some (track r);
                Store.isPlaying := true;
                Store.playbackType := type r;
                Store.progress := Num 0;
                Store.volume := Store.volume s;
                Store.error := None;
                Store.isLoading := false |}
       | Rejected e =>
           Hook.store_after h =
             {| Store.currentTrack := Store.currentTrack s;
                Store.isPlaying := Store.isPlaying s;
                Store.playbackType := Store.playbackType s;
                Store.progress := Store.progress s;
                Store.volume := Store.volume s;
                Store.error := Some (if instanceof_Error e then message e
                                     else "Failed to play track");
                Store.isLoading := false |}
       | Pending =>
           Store.isLoading (Hook.store_after h) = true
           /\ Store.error (Hook.store_after h) = None
       end.
Proof.
  intros env accessToken trackId s w. cbv zeta. unfold Hook.play.
  destruct (outcome (playTrack env trackId accessToken (Num 80) w)) as [r|e|].
  - repeat split; try reflexivity; discriminate.
  - repeat split; try reflexivity; discriminate.
  - repeat split; try reflexivity; discriminate.
Qed.

(** X19.  The hook's [pause] and [resume] never throw.  Without an SDK
    player they always succeed: [pause] reports not playing, and [resume]
    reports playing even when the element refused [play()], since
    [resumePreview] only logs the refusal.  With an SDK player they report
    the new state when the SDK call succeeds; when it fails the error's
    message is stored (which also ends loading) and the playing flag is left
    as it was. *)
Theorem hook_pause_resume :
  forall env s w,
    (forall e, outcome (Hook.page (Hook.pause env s w)) <> Rejected e)
    /\ (forall e, outcome (Hook.page (Hook.resume env s w)) <> Rejected e)
    /\ (spotifyPlayer w = None ->
        Hook.store_after (Hook.pause env s w) = Store.setIsPlaying false s
        /\ Hook.store_after (Hook.resume env s w) = Store.setIsPlaying true s)
    /\ (spotifyPlayer w <> None ->
        Hook.store_after (Hook.pause env s w) =
          match sdkPauseOutcome env with
          | None => Store.setIsPlaying false s
          | Some e => Store.setError
                        (Some (if instanceof_Error e then message e
                               else "Failed to pause playback")) s
          end
        /\ Hook.store_after (Hook.resume env s w) =
             match sdkResumeOutcome env with
             | None => Store.setIsPlaying true s
             | Some e => Store.setError
                           (Some (if instanceof_Error e then message e
                                  else "Failed to resume playback")) s
             end).
Proof.
  intros env s w. unfold Hook.pause, Hook.resume.
  split; [|split].
  - intros e. destruct (outcome (pause env w)); discriminate.
  - intros e. destruct (outcome (resume env w)); discriminate.
  - unfold pause, resume, pausePreview, resumePreview, element_play.
    destruct w as [[el|] u k [sp|] d ws cb nh]; exec; split; intros H;
      try congruence; try discriminate;
      destruct (sdkPauseOutcome env), (sdkResumeOutcome env),
               (playOutcome env); exec; split; reflexivity.
Qed.

(* ===================================================================== *)
(** * Properties of the QR parser and of the scan handler *)
(* ===================================================================== *)

Example parseSpotifyUrl_share_link :
  Parser.parseSpotifyUrl
    "https://open.spotify.com/track/4uLU6hMCjMI75M1A2tKUQC?si=abc123"
  = {| Parser.isValid := true; Parser.trackId := Some "4uLU6hMCjMI75M1A2tKUQC";
       Parser.error := None |}.
Proof. reflexivity. Qed.

Example parseSpotifyUrl_other_site :
  Parser.parseSpotifyUrl "https://example.com/track/4uLU6hMCjMI75M1A2tKUQC"
  = {| Parser.isValid := false; Parser.trackId := None;
       Parser.error := Some "QR code does not contain a Spotify track link" |}.
Proof. reflexivity. Qed.

(** ** The matcher *)

Lemma after_prefix_inv p s r : Parser.after_prefix p s = Some r -> s = p ++ r.
Proof.
  revert s. induction p as [|a p IH]; intros s; cbn.
  - intros H. injection H as ->. reflexivity.
  - destruct s as [|b s]; [discriminate|].
    destruct (Ascii.eqb_spec a b) as [->|]; [|discriminate].
    intros H. rewrite (IH _ H). reflexivity.
Qed.

Lemma after_prefix_app p r : Parser.after_prefix p (p ++ r) = Some r.
Proof.
  induction p as [|a p IH]; cbn; [reflexivity|].
  rewrite Ascii.eqb_refl. exact IH.
Qed.

Lemma alnum_run_split s :
  exists rest,
    s = Parser.alnum_run s ++ rest
    /\ Parser.all_alnum (Parser.alnum_run s) = true
    /\ Parser.stops_group rest = true.
Proof.
  induction s as [|c s (rest & Hs & Ha & Hr)]; cbn.
  - exists "". auto.
  - destruct (Parser.is_alnum c) eqn:Hc.
    + exists rest. cbn. rewrite Hc, Ha. rewrite <- Hs. auto.
    + exists (String c s). cbn. rewrite Hc. auto.
Qed.

Lemma alnum_run_app id suffix :
  Parser.all_alnum id = true ->
  Parser.stops_group suffix = true ->
  Parser.alnum_run (id ++ suffix) = id.
Proof.
  intros Hid Hs. induction id as [|c id IH]; cbn in *.
  - destruct suffix as [|c r]; [reflexivity|]. cbn in *.
    destruct (Parser.is_alnum c); [discriminate | reflexivity].
  - apply andb_true_iff in Hid as [Hc Hid]. rewrite Hc, (IH Hid). reflexivity.
Qed.

Lemma match_here_inv literal s id :
  Parser.match_here literal s = Some id ->
  exists rest,
    s = literal ++ id ++ rest /\ id <> ""
    /\ Parser.all_alnum id = true /\ Parser.stops_group rest = true.
Proof.
  unfold Parser.match_here.
  destruct (Parser.after_prefix literal s) as [r|] eqn:Hp; [|discriminate].
  apply after_prefix_inv in Hp.
  destruct (alnum_run_split r) as (rest & Hr & Ha & Hs).
  destruct (Parser.alnum_run r) as [|c run] eqn:Hrun; [discriminate|].
  intros H. injection H as <-. exists rest.
  rewrite Hp. rewrite Hr at 1. repeat split; auto. discriminate.
Qed.

Lemma match_here_built literal id suffix :
  id <> "" ->
  Parser.all_alnum id = true ->
  Parser.stops_group suffix = true ->
  Parser.match_here literal (literal ++ id ++ suffix) = Some id.
Proof.
  intros Hne Hid Hs. unfold Parser.match_here.
  rewrite after_prefix_app, (alnum_run_app id suffix Hid Hs).
  destruct id; [congruence | reflexivity].
Qed.

Lemma append_assoc (a b c : string) : (a ++ b) ++ c = a ++ b ++ c.
Proof. induction a as [|x a IH]; cbn; [reflexivity | now rewrite IH]. Qed.

Lemma regex_match_inv literal s id :
  Parser.regex_match literal s = Some id ->
  exists pre rest,
    s = pre ++ literal ++ id ++ rest /\ id <> ""
    /\ Parser.all_alnum id = true /\ Parser.stops_group rest = true.
Proof.
  induction s as [|c s IH]; cbn [Parser.regex_match].
  - destruct (Parser.match_here literal "") as [x|] eqn:Hm; [|discriminate].
    intros H. injection H as ->.
    destruct (match_here_inv _ _ _ Hm) as (rest & H1 & H2). exists "", rest. auto.
  - destruct (Parser.match_here literal (String c s)) as [x|] eqn:Hm.
    + intros H. injection H as ->.
      destruct (match_here_inv _ _ _ Hm) as (rest & H1 & H2). exists "", rest. auto.
    + intros H. destruct (IH H) as (pre & rest & H1 & H2).
      exists (String c pre), rest. cbn. rewrite H1. auto.
Qed.

Lemma first_match_inv patterns s id :
  Parser.first_match patterns s = Some id ->
  exists literal pre rest,
    In literal patterns
    /\ s = pre ++ literal ++ id ++ rest /\ id <> ""
    /\ Parser.all_alnum id = true /\ Parser.stops_group rest = true.
Proof.
  induction patterns as [|p ps IH]; cbn; [discriminate|].
  destruct (Parser.regex_match p s) as [x|] eqn:Hm.
  - intros H. injection H as ->.
    destruct (regex_match_inv _ _ _ Hm) as (pre & rest & H).
    exists p, pre, rest. auto.
  - intros H. destruct (IH H) as (l & pre & rest & Hin & H').
    exists l, pre, rest. auto.
Qed.

(** X20.  What [parseSpotifyUrl] answers is one of two shapes.  A valid
    result has no error and a track id that is a non-empty run of letters
    and digits, found in the scanned text right after one of the three
    link patterns and ending where the text ends or a character outside
    letters and digits follows.  An invalid result has no track id and one of
    two messages: 'Invalid QR code data' for the empty text only, otherwise
    'QR code does not contain a Spotify track link'. *)
Theorem parseSpotifyUrl_result_shape :
  forall qrCodeData,
    let r := Parser.parseSpotifyUrl qrCodeData in
    (Parser.isValid r = true /\ Parser.error r = None
     /\ exists id literal pre rest,
          Parser.trackId r = Some id
          /\ In literal Parser.SPOTIFY_PATTERNS
          /\ qrCodeData = pre ++ literal ++ id ++ rest
          /\ id <> "" /\ Parser.all_alnum id = true
          /\ Parser.stops_group rest = true)
    \/ (Parser.isValid r = false /\ Parser.trackId r = None
        /\ Parser.error r =
             Some (if String.eqb qrCodeData ""
                   then "Invalid QR code data"
                   else "QR code does not contain a Spotify track link")).
Proof.
  intros qr. cbv zeta. unfold Parser.parseSpotifyUrl.
  destruct qr as [|c qr]; [right; repeat split|].
  cbn [truthy negb].
  destruct (Parser.first_match Parser.SPOTIFY_PATTERNS (String c qr)) as [id|] eqn:Hm.
  - left. cbn. repeat split.
    destruct (first_match_inv _ _ _ Hm) as (l & pre & rest & H).
    exists id, l, pre, rest. tauto.
  - right. repeat split.
Qed.

(** ** Round trips *)

Lemma regex_match_here literal s id :
  Parser.match_here literal s = Some id -> Parser.regex_match literal s = Some id.
Proof. intros H. destruct s; cbn [Parser.regex_match]; rewrite H; reflexivity. Qed.

Lemma regex_match_skip literal c s :
  Parser.match_here literal (String c s) = None ->
  Parser.regex_match literal (String c s) = Parser.regex_match literal s.
Proof. intros H. cbn [Parser.regex_match]. rewrite H. reflexivity. Qed.

Lemma includes_dot_cons c s :
  includes "." (String c s) = false -> includes "." s = false.
Proof.
  cbn [includes]. destruct (prefix "." (String c s)); [discriminate | auto].
Qed.

Lemma all_alnum_no_dot id : Parser.all_alnum id = true -> includes "." id = false.
Proof.
  induction id as [|c id IH]; [reflexivity|]. cbn [Parser.all_alnum].
  intros H. apply andb_true_iff in H as [Hc Hid].
  cbn [includes prefix]. destruct (ascii_dec "." c) as [<-|]; [discriminate Hc|].
  exact (IH Hid).
Qed.

Lemma includes_dot_app a b :
  includes "." a = false -> includes "." b = false -> includes "." (a ++ b) = false.
Proof.
  intros Ha Hb. induction a as [|c a IH]; [exact Hb|].
  pose proof (includes_dot_cons c a Ha) as Ha'.
  revert Ha. cbn [append includes prefix].
  destruct (ascii_dec "." c); [destruct a; discriminate|].
  intros _. exact (IH Ha').
Qed.

(** A text without a dot holds no match of the web-link pattern. *)
Lemma web_pattern_needs_dot s :
  includes "." s = false ->
  Parser.regex_match "open.spotify.com/track/" s = None.
Proof.
  assert (Hhere : forall s, includes "." s = false ->
                  Parser.match_here "open.spotify.com/track/" s = None).
  { intros s0 H. unfold Parser.match_here.
    destruct (Parser.after_prefix "open.spotify.com/track/" s0) as [r|] eqn:Hp;
      [|reflexivity].
    apply after_prefix_inv in Hp. subst s0. cbn in H.
    destruct r; discriminate H. }
  induction s as [|c s IH]; intros H.
  - cbn [Parser.regex_match]. rewrite (Hhere "" H). reflexivity.
  - rewrite regex_match_skip by (apply Hhere, H).
    apply IH. exact (includes_dot_cons c s H).
Qed.

Lemma isValidTrackId_alnum id :
  Parser.isValidTrackId id = true -> id <> "" /\ Parser.all_alnum id = true.
Proof.
  unfold Parser.isValidTrackId. intros H. apply andb_true_iff in H as [Hl Ha].
  split; [|exact Ha]. intros ->. discriminate Hl.
Qed.

Lemma build_then_parse_core :
  forall id suffix,
    id <> "" ->
    Parser.all_alnum id = true ->
    Parser.stops_group suffix = true ->
    Parser.parseSpotifyUrl (Parser.buildSpotifyUrl id ++ suffix)
      = {| Parser.isValid := true; Parser.trackId := Some id; Parser.error := None |}
    /\ (includes "." suffix = false ->
        Parser.parseSpotifyUrl (Parser.buildSpotifyUri id ++ suffix)
          = {| Parser.isValid := true; Parser.trackId := Some id;
               Parser.error := None |}).
Proof.
  intros id suffix Hne Hid Hs. split.
  - unfold Parser.parseSpotifyUrl, Parser.buildSpotifyUrl.
    cbn [append truthy negb Parser.SPOTIFY_PATTERNS Parser.first_match].
    rewrite !regex_match_skip by reflexivity.
    rewrite (regex_match_here "open.spotify.com/track/" _ id); [reflexivity|].
    exact (match_here_built "open.spotify.com/track/" id suffix Hne Hid Hs).
  - intros Hdot.
    unfold Parser.parseSpotifyUrl, Parser.buildSpotifyUri.
    cbn [truthy negb append Parser.SPOTIFY_PATTERNS Parser.first_match].
    rewrite web_pattern_needs_dot.
    + rewrite (regex_match_here "spotify:track:" _ id); [reflexivity|].
      exact (match_here_built "spotify:track:" id suffix Hne Hid Hs).
    + change (includes "." ("spotify:track:" ++ id ++ suffix) = false).
      apply includes_dot_app; [reflexivity|].
      apply includes_dot_app; [apply all_alnum_no_dot, Hid | exact Hdot].
Qed.

(** X21.  Building a link and parsing it back gives the track id.  For
    every non-empty id of letters and digits -- in particular every id that
    [isValidTrackId] accepts -- [parseSpotifyUrl] finds exactly that id in
    the web URL of [buildSpotifyUrl], also when more text follows that
    starts outside letters and digits (a query string), and in the URI of
    [buildSpotifyUri], also when such text without a dot follows. *)
Theorem build_then_parse :
  forall id suffix,
    id <> "" ->
    Parser.all_alnum id = true ->
    Parser.stops_group suffix = true ->
    Parser.parseSpotifyUrl (Parser.buildSpotifyUrl id ++ suffix)
      = {| Parser.isValid := true; Parser.trackId := Some id; Parser.error := None |}
    /\ (includes "." suffix = false ->
        Parser.parseSpotifyUrl (Parser.buildSpotifyUri id ++ suffix)
          = {| Parser.isValid := true; Parser.trackId := Some id;
               Parser.error := None |}).
Proof. exact build_then_parse_core. Qed.

Lemma build_then_parse_witness :
  Parser.parseSpotifyUrl (Parser.buildSpotifyUrl "4uLU6hMCjMI75M1A2tKUQC" ++ "?si=1")
    = {| Parser.isValid := true; Parser.trackId := Some "4uLU6hMCjMI75M1A2tKUQC";
         Parser.error := None |}
  /\ Parser.parseSpotifyUrl (Parser.buildSpotifyUri "4uLU6hMCjMI75M1A2tKUQC" ++ "")
     = {| Parser.isValid := true; Parser.trackId := Some "4uLU6hMCjMI75M1A2tKUQC";
          Parser.error := None |}.
Proof.
  destruct (isValidTrackId_alnum "4uLU6hMCjMI75M1A2tKUQC" eq_refl) as [Hne Ha].
  split.
  - exact (proj1 (build_then_parse "4uLU6hMCjMI75M1A2tKUQC" "?si=1" Hne Ha eq_refl)).
  - exact (proj2 (build_then_parse "4uLU6hMCjMI75M1A2tKUQC" "" Hne Ha eq_refl) eq_refl).
Defined.

(** ** Texts that are no Spotify link *)

Lemma includes_inside n a b pre post :
  includes n (pre ++ (a ++ n ++ b) ++ post) = true.
Proof.
  replace (pre ++ (a ++ n ++ b) ++ post) with ((pre ++ a) ++ n ++ (b ++ post)).
  - apply includes_app.
  - rewrite !append_assoc. reflexivity.
Qed.

Lemma parseSpotifyUrl_needs_spotify_core :
  forall qrCodeData,
    includes "spotify" qrCodeData = false ->
    Parser.isValid (Parser.parseSpotifyUrl qrCodeData) = false
    /\ Parser.trackId (Parser.parseSpotifyUrl qrCodeData) = None
    /\ Parser.error (Parser.parseSpotifyUrl qrCodeData) <> None.
Proof.
  intros qr Hno. unfold Parser.parseSpotifyUrl.
  destruct (negb (truthy (Some qr))); [repeat split; discriminate|].
  destruct (Parser.first_match Parser.SPOTIFY_PATTERNS qr) as [id|] eqn:Hm;
    [|repeat split; discriminate].
  exfalso.
  destruct (first_match_inv _ _ _ Hm) as (l & pre & rest & Hin & Hqr & _).
  assert (Hyes : includes "spotify" qr = true).
  { subst qr. cbn in Hin. destruct Hin as [<-|[<-|[<-|[]]]].
    - apply (includes_inside "spotify" "open." ".com/track/").
    - apply (includes_inside "spotify" "" ":track:").
    - apply (includes_inside "spotify" "" ".link/"). }
  congruence.
Qed.

(** X22.  Matching is by the lower-case word: a scanned text that does not
    contain 'spotify', spelled exactly so, is never a valid result -- a link
    to another site, or a Spotify link in upper case, is turned down with no
    track id. *)
Theorem parseSpotifyUrl_needs_spotify :
  forall qrCodeData,
    includes "spotify" qrCodeData = false ->
    Parser.isValid (Parser.parseSpotifyUrl qrCodeData) = false
    /\ Parser.trackId (Parser.parseSpotifyUrl qrCodeData) = None
    /\ Parser.error (Parser.parseSpotifyUrl qrCodeData) <> None.
Proof. exact parseSpotifyUrl_needs_spotify_core. Qed.

Lemma parseSpotifyUrl_needs_spotify_witness :
  Parser.isValid
    (Parser.parseSpotifyUrl "HTTPS://OPEN.SPOTIFY.COM/TRACK/4uLU6hMCjMI75M1A2tKUQC")
  = false.
Proof.
  apply (parseSpotifyUrl_needs_spotify
           "HTTPS://OPEN.SPOTIFY.COM/TRACK/4uLU6hMCjMI75M1A2tKUQC").
  reflexivity.
Defined.

(** ** The scan handler *)

Lemma handleScanSuccess_time cb now text h :
  (now - Scanner.lastScanTime h >= Scanner.SCAN_COOLDOWN)%Z ->
  Scanner.lastScanTime (Scanner.handleScanSuccess cb now text h) = now.
Proof.
  intros H. unfold Scanner.handleScanSuccess.
  destruct (Z.ltb_spec (now - Scanner.lastScanTime h) Scanner.SCAN_COOLDOWN); [lia|].
  destruct (Parser.isValid _ && truthy _); reflexivity.
Qed.

(** X23.  The cooldown.  Once [handleScanSuccess] has let a decoded text
    through at time [t] -- whether it held a valid link or not -- every text
    decoded less than 2000 ms after [t] is dropped: store, time stamp and
    what the callback received stay exactly as they were.  So a misread code
    also holds back a valid one for two seconds. *)
Theorem scan_cooldown :
  forall cb t text h t' text',
    (t - Scanner.lastScanTime h >= Scanner.SCAN_COOLDOWN)%Z ->
    (t' - t < Scanner.SCAN_COOLDOWN)%Z ->
    Scanner.handleScanSuccess cb t' text' (Scanner.handleScanSuccess cb t text h)
      = Scanner.handleScanSuccess cb t text h.
Proof.
  intros cb t text h t' text' Ht Ht'.
  pose proof (handleScanSuccess_time cb t text h Ht) as Hlast.
  unfold Scanner.handleScanSuccess at 1. rewrite Hlast.
  destruct (Z.ltb_spec (t' - t) Scanner.SCAN_COOLDOWN); [reflexivity | lia].
Qed.

Lemma scan_cooldown_witness :
  Scanner.handleScanSuccess true 11500 "spotify:track:4uLU6hMCjMI75M1A2tKUQC"
    (Scanner.handleScanSuccess true 10000 "hello" Scanner.initial)
  = Scanner.handleScanSuccess true 10000 "hello" Scanner.initial.
Proof.
  apply scan_cooldown; [vm_compute; discriminate | reflexivity].
Defined.

(** X24.  A scan that is let through.  Outside the cooldown, a decoded
    text that holds the web URL of a track id (a non-empty run of letters
    and digits, possibly followed by a query string) records text and id in
    the store, clears the error and hands exactly that id to the callback,
    once.  A text without 'spotify' in it sets the error message, hands
    nothing to the callback and keeps the last track id.  Neither touches the
    scanning and camera flags. *)
Theorem scan_let_through :
  forall t h,
    (t - Scanner.lastScanTime h >= Scanner.SCAN_COOLDOWN)%Z ->
    (forall id suffix,
        id <> "" -> Parser.all_alnum id = true -> Parser.stops_group suffix = true ->
        Scanner.handleScanSuccess true t (Parser.buildSpotifyUrl id ++ suffix) h =
          {| Scanner.store :=
               {| ScanStore.isScanning := ScanStore.isScanning (Scanner.store h);
                  ScanStore.lastScannedCode :=
                    Some (Parser.buildSpotifyUrl id ++ suffix);
                  ScanStore.lastTrackId := Some id;
                  ScanStore.error := None;
                  ScanStore.isCameraReady :=
                    ScanStore.isCameraReady (Scanner.store h) |};
             Scanner.lastScanTime := t;
             Scanner.delivered := (Scanner.delivered h ++ [id])%list |})
    /\ (forall cb text,
          text <> "" ->
          includes "spotify" text = false ->
          Scanner.handleScanSuccess cb t text h =
            {| Scanner.store :=
                 ScanStore.setError
                   (Some "QR code does not contain a Spotify track link")
                   (Scanner.store h);
               Scanner.lastScanTime := t;
               Scanner.delivered := Scanner.delivered h |}).
Proof.
  intros t h Ht. split.
  - intros id suffix Hne Hid Hs. unfold Scanner.handleScanSuccess.
    destruct (Z.ltb_spec (t - Scanner.lastScanTime h) Scanner.SCAN_COOLDOWN); [lia|].
    destruct (build_then_parse_core id suffix Hne Hid Hs) as [-> _].
    destruct id; [congruence | reflexivity].
  - intros cb text Hne Hno. unfold Scanner.handleScanSuccess.
    destruct (Z.ltb_spec (t - Scanner.lastScanTime h) Scanner.SCAN_COOLDOWN); [lia|].
    destruct (parseSpotifyUrl_needs_spotify_core text Hno) as (Hv & _ & _).
    rewrite Hv. cbn [andb]. unfold Parser.parseSpotifyUrl in *.
    destruct text; [congruence|]. cbn [truthy negb] in *.
    destruct (Parser.first_match Parser.SPOTIFY_PATTERNS (String a text));
      [discriminate Hv | reflexivity].
Qed.

Lemma scan_let_through_witness :
  Scanner.handleScanSuccess true 5000
    (Parser.buildSpotifyUrl "4uLU6hMCjMI75M1A2tKUQC" ++ "?si=1") Scanner.initial
  = {| Scanner.store :=
         {| ScanStore.isScanning := false;
            ScanStore.lastScannedCode :=
              Some (Parser.buildSpotifyUrl "4uLU6hMCjMI75M1A2tKUQC" ++ "?si=1");
            ScanStore.lastTrackId := Some "4uLU6hMCjMI75M1A2tKUQC";
            ScanStore.error := None;
            ScanStore.isCameraReady := false |};
       Scanner.lastScanTime := 5000;
       Scanner.delivered := ["4uLU6hMCjMI75M1A2tKUQC"] |}.
Proof.
  assert (Ht : (5000 - Scanner.lastScanTime Scanner.initial
                >= Scanner.SCAN_COOLDOWN)%Z) by (vm_compute; discriminate).
  apply (proj1 (scan_let_through 5000 Scanner.initial Ht)
           "4uLU6hMCjMI75M1A2tKUQC" "?si=1"); [discriminate | reflexivity | reflexivity].
Defined.

Lemma handleScanSuccess_delivers cb now text h :
  Scanner.delivered (Scanner.handleScanSuccess cb now text h) = Scanner.delivered h
  \/ exists id,
       Scanner.delivered (Scanner.handleScanSuccess cb now text h)
         = (Scanner.delivered h ++ [id])%list
       /\ id <> "" /\ Parser.all_alnum id = true /\ includes id text = true.
Proof.
  unfold Scanner.handleScanSuccess.
  destruct (now - Scanner.lastScanTime h <? Scanner.SCAN_COOLDOWN)%Z; [left; reflexivity|].
  unfold Parser.parseSpotifyUrl.
  destruct (negb (truthy (Some text))); [left; reflexivity|].
  destruct (Parser.first_match Parser.SPOTIFY_PATTERNS text) as [id|] eqn:Hm;
    [|left; reflexivity].
  destruct (first_match_inv _ _ _ Hm) as (l & pre & rest & _ & Htext & Hne & Ha & _).
  cbn [Parser.isValid Parser.trackId andb].
  destruct id as [|c id]; [congruence|]. cbn [truthy or_else].
  destruct cb; [|left; reflexivity].
  right. exists (String c id). repeat split; auto.
  subst text. rewrite <- append_assoc. apply includes_app.
Qed.

(** X25.  What the callback receives.  Over any sequence of decoded texts,
    with any time stamps, the scan handler hands the callback at most one id
    per text, never takes back what it handed over, and every id it hands
    over is a non-empty run of letters and digits -- whatever a QR code
    contains, nothing else reaches [play]. *)
Theorem scans_deliver_track_ids :
  forall cb events h,
    exists more,
      Scanner.delivered (Scanner.scans cb events h)
        = (Scanner.delivered h ++ more)%list
      /\ List.length more <= List.length events
      /\ Forall (fun id => id <> "" /\ Parser.all_alnum id = true) more.
Proof.
  intros cb events. induction events as [|[now text] rest IH]; intros h.
  - exists []. cbn. rewrite app_nil_r. auto.
  - cbn [Scanner.scans].
    destruct (IH (Scanner.handleScanSuccess cb now text h)) as (more & Hd & Hl & Hf).
    destruct (handleScanSuccess_delivers cb now text h)
      as [Hsame | (id & Hadd & Hne & Ha & _)].
    + exists more. rewrite Hd, Hsame. cbn. auto.
    + exists (id :: more). rewrite Hd, Hadd, <- app_assoc. cbn.
      repeat split; auto. lia.
Qed.

(* ===================================================================== *)
(** * Further compositions *)
(* ===================================================================== *)

Lemma hook_pause_resume_witness :
  Hook.store_after
    (Hook.resume (Sample.on None (Sample.refusing_play
                                    (Sample.iphone_blocked Sample.track_with_preview)))
       Store.initial
       (final (preparePreview "https://p.scdn.co/mp3-preview/clip" (Num 80)
                 initial_world)))
  = Store.setIsPlaying true Store.initial.
Proof.
  exact (proj2 (proj1 (proj2 (proj2
           (hook_pause_resume
              (Sample.on None (Sample.refusing_play
                                 (Sample.iphone_blocked Sample.track_with_preview)))
              Store.initial
              (final (preparePreview "https://p.scdn.co/mp3-preview/clip" (Num 80)
                        initial_world))))) eq_refl)).
Defined.

(** X26.  The deferred start.  After a [loadTrack] that resolved, and with
    no SDK player object around, a [resume] whose [play()] resolves starts
    the prepared clip: the element plays, from position 0, the preview URL of
    the loaded track. *)
Theorem loadTrack_then_resume :
  forall env env' trackId token vol w t,
    token <> "" ->
    metadata_resolves env t ->
    truthy (preview_url t) = true ->
    between 0 100 vol = true ->
    spotifyPlayer w = None ->
    playOutcome env' = None ->
    let w1 := final (loadTrack env trackId (Some token) vol w) in
    outcome (resume env' w1) = Resolved tt
    /\ exists el,
         audioElement (final (resume env' w1)) = Some el
         /\ src el = or_else (preview_url t) ""
         /\ paused el = false
         /\ currentTime el = Num 0.
Proof.
  intros env env' trackId token vol w t Htok Hmeta Hurl Hv Hsp Hplay.
  destruct (truthy_Some_nonempty token Htok) as [Ht Ho].
  assert (Hw1 : final (loadTrack env trackId (Some token) vol w)
                = final (preparePreview (or_else (preview_url t) "") vol w)).
  { unfold loadTrack. rewrite Ht, Ho. cbn [negb].
    rewrite final_bind, (getTrack_resolves env trackId token t w Hmeta).
    cbn [outcome final]. rewrite Hurl, final_bind.
    destruct (preparePreview_prepares (or_else (preview_url t) "") vol w Hv) as [-> _].
    reflexivity. }
  cbv zeta. rewrite Hw1. clear Hw1.
  apply volume_in_range_accepted in Hv.
  unfold resume, resumePreview, preparePreview, element_set_volume, element_play.
  rewrite Hplay.
  destruct (div vol (Num 100)) as [|q]; [discriminate Hv|]. rewrite Hv.
  destruct w as [[el|] u k sp d ws cb nh]; cbn in Hsp; subst sp; exec;
    (split; [reflexivity | eexists; repeat split; reflexivity]).
Qed.

Lemma loadTrack_then_resume_witness :
  outcome (resume (Sample.iphone_starts Sample.track_with_preview)
             (final (loadTrack (Sample.iphone_starts Sample.track_with_preview)
                       "4uLU6hMCjMI75M1A2tKUQC" (Some "token") (Num 80)
                       initial_world)))
  = Resolved tt.
Proof.
  apply (loadTrack_then_resume
           (Sample.iphone_starts Sample.track_with_preview)
           (Sample.iphone_starts Sample.track_with_preview)
           "4uLU6hMCjMI75M1A2tKUQC" "token" (Num 80) initial_world
           Sample.track_with_preview).
  - discriminate.
  - eexists; repeat split; reflexivity.
  - reflexivity.
  - reflexivity.
  - reflexivity.
  - reflexivity.
Defined.

(** X27.  Volume within the slider's range.  For every finite input the
    store holds a value of 0..100 afterwards.  For an input of 0..100 and an
    existing element, [changeVolume] leaves store and engine in agreement:
    the store holds the input, the element holds it scaled by 1/100, nothing
    else on the element changes and nothing is thrown.  Without an element
    only the store changes. *)
Theorem changeVolume_store_and_engine :
  forall (q : Q) s w,
    let h := Hook.changeVolume (Num q) s w in
    between 0 100 (Store.volume (Hook.store_after h)) = true
    /\ (audioElement w = None -> Hook.page h = mkRun (Resolved tt) w [])
    /\ (forall el,
          audioElement w = Some el ->
          between 0 100 (Num q) = true ->
          outcome (Hook.page h) = Resolved tt
          /\ num_eq (Store.volume (Hook.store_after h)) (Num q)
          /\ audioElement (final (Hook.page h))
             = Some (with_volume (div (Num q) (Num 100)) el)).
Proof.
  intros q s w. cbv zeta. unfold Hook.changeVolume. cbn [Hook.page Hook.store_after].
  pose proof (setVolume_clamps q s) as Hclamp. cbv zeta in Hclamp.
  destruct Hclamp as (Hrange & _ & _ & Hin).
  split; [exact Hrange|].
  unfold setPreviewVolume, element_set_volume. rewrite bind_get.
  split.
  - intros ->. reflexivity.
  - intros el Hel Hb.
    pose proof (volume_in_range_accepted (Num q) Hb) as Hacc.
    destruct w as [ae u k sp d ws cb nh]. cbn in Hel. subst ae.
    cbn [audioElement].
    destruct (div (Num q) (Num 100)) as [|q'] eqn:Hd; [discriminate Hd|].
    rewrite Hacc.
    split; [reflexivity|]. split; [|reflexivity].
    apply Hin. cbn in Hb. apply andb_true_iff in Hb as [H0 H1].
    rewrite Qle_bool_iff in H0, H1. split; assumption.
Qed.

Lemma changeVolume_store_and_engine_witness :
  audioElement
    (final (Hook.page
              (Hook.changeVolume (Num 50) Store.initial
                 (final (preparePreview "https://p.scdn.co/mp3-preview/clip" (Num 80)
                           initial_world)))))
  = Some (with_volume (div (Num 50) (Num 100))
            (with_volume (Num (80 / 100))
               (with_currentTime (Num 0)
                  (with_src "https://p.scdn.co/mp3-preview/clip"
                     (with_preload "auto" new_Audio))))).
Proof.
  exact (proj2 (proj2 (proj2 (proj2 (changeVolume_store_and_engine 50 Store.initial
           (final (preparePreview "https://p.scdn.co/mp3-preview/clip" (Num 80)
                     initial_world)))) _ eq_refl eq_refl))).
Defined.

(** ** Reusing the SDK device *)

Ltac no_sdk_init_side := cbn; first [ reflexivity | repeat split; reflexivity ].

Lemma strategy_sdk_with_device env t uri token w d :
  deviceId w = Some d -> d <> "" ->
  strategy_sdk env t uri token w =
    (if negb (isIOSDevice env) then
       try_catch
         (playWithSDK env uri token ;;
          ret (Some {| type := full; track := t; autoplayBlocked := None |}))
         (fun error =>
            emit (ConsoleLog ("SDK playback failed, trying fallbacks: "
                                ++ message error)) ;;
            ret None)
     else ret None) w.
Proof.
  intros Hd Hne. unfold strategy_sdk.
  destruct (negb (isIOSDevice env)); [|reflexivity].
  unfold try_catch. rewrite bind_get, Hd.
  destruct d; [congruence|]. cbn [truthy negb]. rewrite bind_ret. reflexivity.
Qed.

Lemma playWithSDK_first_effect env uri token w d :
  deviceId w = Some d -> d <> "" ->
  exists rest,
    effects (playWithSDK env uri token w) =
      Fetch "PUT" ("https://api.spotify.com/v1/me/player/play?device_id=" ++ d)
            ("Bearer " ++ token) [uri] :: rest.
Proof.
  intros Hd Hne. unfold playWithSDK. rewrite bind_get, Hd.
  destruct d as [|c d']; [congruence|]. cbn [truthy negb or_else].
  unfold fetch. rewrite bind_assoc, effects_bind_emit.
  eexists. reflexivity.
Qed.

(** X28.  Initialise once, reuse thereafter.  On a platform that is not
    gesture-restrictive, with a device id known already, [playTrack] does
    not initialise the SDK again: right after the metadata request it sends
    the play command to that device, and in the whole run -- whichever
    strategy ends it -- no script is appended, no SDK call is made, and the
    SDK session is left as it was. *)
Theorem playTrack_reuses_device :
  forall env trackId token vol w t d,
    token <> "" ->
    metadata_resolves env t ->
    isIOSDevice env = false ->
    deviceId w = Some d -> d <> "" ->
    (exists rest,
        effects (playTrack env trackId (Some token) vol w) =
          Fetch "GET" (BASE_URL ++ "/tracks/" ++ trackId) ("Bearer " ++ token) []
          :: Fetch "PUT"
               ("https://api.spotify.com/v1/me/player/play?device_id=" ++ d)
               ("Bearer " ++ token) ["spotify:track:" ++ trackId]
          :: rest)
    /\ Forall (fun e => is_sdk_init_effect e = false)
              (effects (playTrack env trackId (Some token) vol w))
    /\ same_sdk_session w (final (playTrack env trackId (Some token) vol w)).
Proof.
  intros env trackId token vol w t d Htok Hmeta Hios Hd Hne.
  destruct (truthy_Some_nonempty token Htok) as [Ht Ho].
  pose proof (getTrack_resolves env trackId token t w Hmeta) as Hg.
  set (uri := "spotify:track:" ++ trackId).
  pose proof (strategy_sdk_with_device env t uri token w d Hd Hne) as Hs.
  rewrite Hios in Hs. cbn [negb] in Hs.
  assert (Hsdk : respects no_sdk_init
                   (try_catch
                      (playWithSDK env uri token ;;
                       ret (Some {| type := full; track := t;
                                    autoplayBlocked := None |}))
                      (fun error =>
                         emit (ConsoleLog ("SDK playback failed, trying fallbacks: "
                                             ++ message error)) ;;
                         ret None)))
    by respects_with no_sdk_init_side.
  assert (Hrest : forall s1 : option PlayResult,
            respects no_sdk_init
              (match s1 with
               | Some result => ret result
               | None =>
                   s2 <- strategy_preview env t vol ;;
                   match s2 with
                   | Some result => ret result
                   | None =>
                       s3 <- strategy_connect env t uri token ;;
                       match s3 with
                       | Some result => ret result
                       | None => throw nothing_could_play
                       end
                   end
               end)).
  { intros s1. respects_with no_sdk_init_side. }
  unfold playTrack. rewrite Ht, Ho. cbn [negb]. fold uri.
  rewrite effects_bind, final_bind.
  rewrite outcome_try_catch, effects_try_catch, final_try_catch, Hg.
  cbn [outcome final effects].
  rewrite effects_bind, final_bind, Hs.
  destruct (Hsdk w) as [Hrel1 Heff1].
  match goal with
  | |- context [outcome (try_catch ?m ?h w)] =>
      set (sdk := try_catch m h) in *
  end.
  assert (Hput : exists rest,
             effects (sdk w) =
               Fetch "PUT" ("https://api.spotify.com/v1/me/player/play?device_id=" ++ d)
                     ("Bearer " ++ token) [uri] :: rest).
  { destruct (playWithSDK_first_effect env uri token w d Hd Hne) as [r0 Hr0].
    subst sdk. rewrite effects_try_catch, effects_bind, outcome_bind, Hr0.
    destruct (outcome (playWithSDK env uri token w));
      cbn [app]; eexists; reflexivity. }
  destruct Hput as [rest Hput].
  destruct (outcome (sdk w)) as [s1| |] eqn:Hout.
  - destruct (Hrest s1 (final (sdk w))) as [Hrel2 Heff2].
    split; [|split].
    + rewrite Hput. cbn [app]. eexists. reflexivity.
    + constructor; [reflexivity|]. apply Forall_app. split; assumption.
    + eapply (rel_trans no_sdk_init); eassumption.
  - split; [|split].
    + rewrite Hput. cbn [app]. eexists. reflexivity.
    + constructor; [reflexivity | exact Heff1].
    + exact Hrel1.
  - split; [|split].
    + rewrite Hput. cbn [app]. eexists. reflexivity.
    + constructor; [reflexivity | exact Heff1].
    + exact Hrel1.
Qed.

Lemma playTrack_reuses_device_witness :
  let env := Sample.desktop_premium Sample.track_with_preview in
  let w := final (playTrack env "4uLU6hMCjMI75M1A2tKUQC" (Some "token") (Num 80)
                    initial_world) in
  deviceId w = Some "device-1"
  /\ Forall (fun e => is_sdk_init_effect e = false)
            (effects (playTrack env "6rqhFgbbKwnb9MLmUQDhG6" (Some "token") (Num 80) w))
  /\ same_sdk_session w
       (final (playTrack env "6rqhFgbbKwnb9MLmUQDhG6" (Some "token") (Num 80) w)).
Proof.
  intros env w. split; [reflexivity|].
  refine (proj2 (playTrack_reuses_device env "6rqhFgbbKwnb9MLmUQDhG6" "token" (Num 80) w
                   Sample.track_with_preview "device-1" _ _ _ _ _)).
  - discriminate.
  - eexists; repeat split; reflexivity.
  - reflexivity.
  - reflexivity.
  - discriminate.
Defined.
